(** * A shallow embedding of fenollp/fmtd

    The development follows [src/fmtd.go] (first version of [Fmt], which
    drives [buildx.New]), [src/buildx/buildx.go] ([New],
    [OverwriteFileContents]) and the file-selection helpers
    [ensureRegular], [ensureUnder], [ensureWritable] and [uniqueSorted].
    [src/unnamed/part_002] inlines the same steps into one function.

    Go's standard library functions that the code calls ([filepath.Clean],
    [filepath.Join], [filepath.Abs], [filepath.WalkDir], [os.Lstat],
    [os.OpenFile], [strings.TrimPrefix], [sort.Strings], ...) are modelled
    after their documented behaviour on Unix.  The build engine (docker)
    is an opaque function of its arguments and input archive. *)

From Stdlib Require Import String Ascii List Bool Arith Lia.
From Stdlib Require Import Sorting.Sorted NArith.
Import ListNotations.
Open Scope string_scope.
Open Scope list_scope.
Set Warnings "-register-all".


(* ------------------------------------------------------------------ *)
(** ** Strings and Unix paths *)

Definition dq : string := String (ascii_of_nat 34) EmptyString.
Definition nl : string := String (ascii_of_nat 10) EmptyString.
Definition slash : ascii := "/"%char.

(** [strings.HasPrefix] *)
Definition HasPrefix (s pre : string) : bool := String.prefix pre s.

(** [strings.TrimPrefix] *)
Definition TrimPrefix (s pre : string) : string :=
  if HasPrefix s pre then substring (String.length pre) (String.length s) s
  else s.

(** [strings.HasSuffix] *)
Fixpoint rev_string (s : string) : string :=
  match s with
  | EmptyString => EmptyString
  | String c s' => rev_string s' ++ String c EmptyString
  end.

Definition HasSuffix (s suf : string) : bool :=
  String.prefix (rev_string suf) (rev_string s).

(** Split a path at every slash (empty components kept). *)
Fixpoint split_slash_aux (cur : string) (s : string) : list string :=
  match s with
  | EmptyString => [cur]
  | String c s' =>
      if Ascii.eqb c slash then cur :: split_slash_aux EmptyString s'
      else split_slash_aux (cur ++ String c EmptyString) s'
  end.

Definition split_slash (s : string) : list string := split_slash_aux EmptyString s.

Definition join_slash (xs : list string) : string := String.concat "/" xs.

(** [filepath.IsAbs] on Unix *)
Definition IsAbs (p : string) : bool := HasPrefix p "/".

(** [filepath.Clean]: the lexical rules of Go's documentation: collapse
    repeated slashes, drop [.] elements, let [..] cancel the preceding
    element, drop [..] at the start of a rooted path, and return [.] for
    an empty result. *)
Fixpoint clean_push (rooted : bool) (stack : list string) (comps : list string)
  : list string :=
  match comps with
  | [] => stack
  | c :: cs =>
      if String.eqb c "" || String.eqb c "." then clean_push rooted stack cs
      else if String.eqb c ".." then
        match stack with
        | top :: rest =>
            if String.eqb top ".." then clean_push rooted (".." :: stack) cs
            else clean_push rooted rest cs
        | [] =>
            if rooted then clean_push rooted [] cs
            else clean_push rooted [".."] cs
        end
      else clean_push rooted (c :: stack) cs
  end.

Definition clean_comps (p : string) : list string :=
  rev (clean_push (IsAbs p) [] (split_slash p)).

Definition Clean (p : string) : string :=
  let cs := clean_comps p in
  if IsAbs p then "/" ++ join_slash cs
  else match cs with [] => "." | _ => join_slash cs end.

(** [filepath.Join] of two elements: empty elements are ignored, the
    result is cleaned. *)
Definition Join (a b : string) : string :=
  if String.eqb a "" then (if String.eqb b "" then "" else Clean b)
  else if String.eqb b "" then Clean a
  else Clean (a ++ "/" ++ b).

(** [filepath.Abs], relative to the process working directory [cwd]. *)
Definition Abs (cwd p : string) : string :=
  if IsAbs p then Clean p else Join cwd p.

(** [os.basename], the name [os.Lstat] gives to its [FileInfo]. *)
Definition basename (p : string) : string :=
  let cs := split_slash p in
  let cs' := rev cs in
  (* trailing slashes are removed, the root keeps its slash *)
  let fix drop_empty (l : list string) :=
    match l with
    | "" :: l' => drop_empty l'
    | _ => l
    end in
  match drop_empty cs' with
  | x :: _ => x
  | [] => if String.eqb p "" then "" else "/"
  end.

(* ------------------------------------------------------------------ *)
(** ** Errors *)

(** Causes wrapped by [unusable] and by [*fs.PathError]. *)
Inductive cause :=
| ENOENT | ENOTDIR | EISDIR | EACCES | ELOOP | EINVAL | ENOSPC | EPIPE
| NotRegular            (* errors.New("not a regular file") *)
| NotOnVolume           (* errors.New("not on $PWD's volume") *)
| NotUnderPWD           (* errors.New("not under $PWD") *)
| PathErr (op path : string) (c : cause).   (* an unwrapped *fs.PathError *)

(** Failures of [cmd.Run()]: [*exec.ExitError] for a process that exited
    with a status or was killed by a signal, or a start/I-O failure. *)
Inductive run_error :=
| RExit (code : nat)
| RSignal (sig : string)
| RStart (msg : string).

Fixpoint digits_aux (fuel n : nat) (acc : string) : string :=
  match fuel with
  | 0 => acc
  | S fuel' =>
      let d := String (ascii_of_nat (48 + n mod 10)) EmptyString in
      if Nat.ltb n 10 then d ++ acc else digits_aux fuel' (n / 10) (d ++ acc)
  end.

(** [strconv.Itoa] on a non-negative integer. *)
Definition Itoa (n : nat) : string := digits_aux (S n) n "".

(** [Error()] of an [exec.ExitError], i.e. [os.ProcessState.String()]. *)
Definition run_error_string (e : run_error) : string :=
  match e with
  | RExit code => "exit status " ++ Itoa code
  | RSignal sig => "signal: " ++ sig
  | RStart msg => msg
  end.

Inductive error :=
| ErrNoDocker                 (* buildx.ErrNoDocker *)
| ErrDockerBuildFailure       (* buildx.ErrDockerBuildFailure *)
| ErrDryRunFoundFiles         (* fmtd.ErrDryRunFoundFiles *)
| ErrNoDockerfile             (* buildx.ErrNoDockerfile *)
| ErrUnusable (fn : string) (c : cause)   (* unusable(fn, err) *)
| ErrRun (e : run_error)      (* cmd.Run() failure passed on as is *)
| ErrTar (msg : string)       (* archive/tar failures *)
| ErrPath (op path : string) (c : cause)  (* *fs.PathError from os calls *)
| ErrPanic (msg : string).    (* a Go runtime panic *)

(* ------------------------------------------------------------------ *)
(** ** File system

    A tree of nodes.  A directory lists its children in name order, the
    order [os.ReadDir] returns them in.  Permissions are the owner and
    other bits of the mode, against the uid of the process (0 is root);
    directories are searchable by everyone.  Paths are resolved as the
    kernel does, following symbolic links (see [namei]). *)

Record file := mkFile {
  f_data : string;
  f_mode : nat;
  f_uid : nat;
  f_mtime : nat
}.

(** A symbolic link, or a device node (its permission bits and owner as
    for a file, and what reading it to its end gives). *)
Inductive special := SSymlink (target : string) | SDevice (f : file).

Inductive node :=
| NFile (f : file)
| NDir (kids : list (string * node))
| NSpecial (s : special).

Definition is_dir (n : node) : bool :=
  match n with NDir _ => true | _ => false end.

Definition is_regular (n : node) : bool :=
  match n with NFile _ => true | _ => false end.

Inductive lres := LFound (n : node) | LNoEnt | LNotDir.

Fixpoint find_kid (c : string) (kids : list (string * node)) : option node :=
  match kids with
  | [] => None
  | (k, v) :: r => if String.eqb k c then Some v else find_kid c r
  end.

Fixpoint lookup (cs : list string) (n : node) : lres :=
  match cs with
  | [] => LFound n
  | c :: cs' =>
      match n with
      | NDir kids =>
          match find_kid c kids with
          | Some n' => lookup cs' n'
          | None => LNoEnt
          end
      | _ => LNotDir
      end
  end.

Fixpoint update_kid (c : string) (h : node -> node) (kids : list (string * node))
  : list (string * node) :=
  match kids with
  | [] => []
  | (k, v) :: r => if String.eqb k c then (k, h v) :: r else (k, v) :: update_kid c h r
  end.

Fixpoint update (cs : list string) (g : node -> node) (n : node) : node :=
  match cs with
  | [] => g n
  | c :: cs' =>
      match n with
      | NDir kids => NDir (update_kid c (update cs' g) kids)
      | _ => n
      end
  end.

(* ------------------------------------------------------------------ *)
(** ** The process: environment, state and the run monad *)

(** A tar header as written by [archive/tar]. *)
Record tar_entry := mkEntry {
  t_name : string;
  t_mode : nat;
  t_size : nat;
  t_data : string
}.

(** The archive read back by [tar.NewReader]: entries, ended by [io.EOF]
    or by a read error. *)
Inductive tarstream :=
| TEOF
| TErr (msg : string)
| TEnt (name data : string) (rest : tarstream).

(** What [cmd.Run()] leaves: the bytes captured on its stdout and the
    bytes passed through to stderr, or a failure. *)
Inductive engine_result :=
| RunOk (out : tarstream) (stderr : string)
| RunErr (e : run_error) (stderr : string).

Record env := mkEnv {
  e_cwd : string;                   (* os.Getwd() *)
  e_uid : nat;
  e_docker : option string;         (* exec.LookPath("docker") *)
  e_environ : list string;          (* os.Environ() *)
  e_engine : list string -> list tar_entry -> engine_result;
  e_fault : string -> string -> option cause;
      (* the errno with which the method (truncate, seek, close) of the
         *os.File opened as the given path fails, if it does *)
  e_wfault : string -> option (nat * cause);
      (* the write to the file opened as the given path fails after its
         first bytes, if it does *)
  e_stdout_err : list string -> string -> option error
      (* the error of a Write of the given bytes on the primary output
         after the given writes, if it fails *)
}.

(** Observable events: a file's contents read, the engine run with its
    arguments and input archive, a file written. *)
Inductive event :=
| EvRead (p : string)
| EvBuild (args : list string) (archive : list tar_entry)
| EvWrite (p : string).

Record state := mkState {
  s_root : node;
  s_stdout : list string;   (* the writes made on the primary output *)
  s_stderr : string;        (* the diagnostic output *)
  s_trace : list event;
  s_clock : nat;            (* the time stamped on modified files *)
  s_found : bool            (* Fmt's local foundFiles, shared with its closure *)
}.

Definition M (A : Type) : Type := env -> state -> (error + A) * state.

Definition ret {A} (a : A) : M A := fun _ s => (inr a, s).

Definition bind {A B} (m : M A) (k : A -> M B) : M B :=
  fun e s =>
    match m e s with
    | (inl err, s') => (inl err, s')
    | (inr a, s') => k a e s'
    end.

Definition raise {A} (err : error) : M A := fun _ s => (inl err, s).

Notation "x <- m ;; k" := (bind m (fun x => k))
  (at level 61, m at next level, right associativity).
Notation "' p <- m ;; k" := (bind m (fun x => match x with p => k end))
  (at level 61, p pattern, m at next level, right associativity).
Notation "m ;;; k" := (bind m (fun _ => k))
  (at level 61, right associativity).

Definition ask : M env := fun e s => (inr e, s).
Definition get : M state := fun _ s => (inr s, s).
Definition modify (f : state -> state) : M unit := fun _ s => (inr tt, f s).

Definition set_root (r : node) (s : state) : state :=
  mkState r (s_stdout s) (s_stderr s) (s_trace s) (s_clock s) (s_found s).
Definition add_stdout (x : string) (s : state) : state :=
  mkState (s_root s) (s_stdout s ++ [x]) (s_stderr s) (s_trace s) (s_clock s) (s_found s).
Definition add_stderr (x : string) (s : state) : state :=
  mkState (s_root s) (s_stdout s) (s_stderr s ++ x) (s_trace s) (s_clock s) (s_found s).
Definition add_event (ev : event) (s : state) : state :=
  mkState (s_root s) (s_stdout s) (s_stderr s) (s_trace s ++ [ev]) (s_clock s) (s_found s).
Definition set_found (b : bool) (s : state) : state :=
  mkState (s_root s) (s_stdout s) (s_stderr s) (s_trace s) (s_clock s) b.

(** One [Write] call on the primary output. *)
Definition out (x : string) : M unit := modify (add_stdout x).

Definition can_read (e : env) (f : file) : bool :=
  Nat.eqb (e_uid e) 0 ||
  (if Nat.eqb (f_uid f) (e_uid e) then Nat.testbit (f_mode f) 8
   else Nat.testbit (f_mode f) 2).

Definition can_write (e : env) (f : file) : bool :=
  Nat.eqb (e_uid e) 0 ||
  (if Nat.eqb (f_uid f) (e_uid e) then Nat.testbit (f_mode f) 7
   else Nat.testbit (f_mode f) 1).

(** Path resolution, as the kernel does it: the path is taken component by
    component from the root (an absolute path) or from the working
    directory.  Empty and [.] components stay in the directory, [..] goes
    to its parent (the root is its own parent), a name is looked up in it.
    A symbolic link is replaced by its target when components follow it,
    and also when it is the last one and [follow] is set; an empty target
    is ENOENT.  Every component but the last must be a directory (ENOTDIR).
    [namei_go] walks the components of one path, handing the rest of the
    resolution to [k] at a symbolic link; [namei] allows [links] links
    before ELOOP.  The result is the path of the entry reached, as the
    names from the root, and the entry. *)
Fixpoint namei_go (k : list string -> list string -> cause + (list string * node))
  (root : node) (follow : bool) (cur cs : list string) : cause + (list string * node) :=
  match lookup cur root with
  | LNoEnt => inl ENOENT
  | LNotDir => inl ENOTDIR
  | LFound n =>
      match cs with
      | [] => inr (cur, n)
      | c :: rest =>
          match n with
          | NDir kids =>
              if String.eqb c "" || String.eqb c "." then namei_go k root follow cur rest
              else if String.eqb c ".." then namei_go k root follow (removelast cur) rest
              else
                match find_kid c kids with
                | None => inl ENOENT
                | Some (NSpecial (SSymlink t)) =>
                    if match rest with [] => follow | _ => true end then
                      if String.eqb t "" then inl ENOENT
                      else k (if IsAbs t then [] else cur) (split_slash t ++ rest)
                    else namei_go k root follow (cur ++ [c]) rest
                | Some _ => namei_go k root follow (cur ++ [c]) rest
                end
          | _ => inl ENOTDIR
          end
      end
  end.

Fixpoint namei (links : nat) (root : node) (follow : bool) (cur cs : list string)
  : cause + (list string * node) :=
  namei_go (fun cur' cs' => match links with
                            | 0 => inl ELOOP
                            | S l => namei l root follow cur' cs'
                            end) root follow cur cs.

(** The resolution of the path [p] an [os] call hands to the kernel, with
    Linux's limit of 40 symbolic links. *)
Definition namei_from (e : env) (s : state) (follow : bool) (p : string)
  : cause + (list string * node) :=
  if String.eqb p "" then inl ENOENT
  else namei 40 (s_root s) follow (if IsAbs p then [] else clean_comps (e_cwd e)) (split_slash p).

(** [os.Lstat(p)]: the entry itself (a last symbolic link is not
    followed), or the errno of the [*fs.PathError]. *)
Definition lstat (e : env) (s : state) (p : string) : cause + node :=
  match namei_from e s false p with
  | inl c => inl c
  | inr (_, n) => inr n
  end.

(** [os.OpenFile(p, os.O_RDWR, perm)]: no [O_CREATE], so a missing file
    is an error; the file must be readable and writable.  The open file is
    the entry [p] resolves to, given with its path from the root. *)
Definition open_rdwr (e : env) (s : state) (p : string) : cause + (list string * node) :=
  match namei_from e s true p with
  | inl c => inl c
  | inr (cs, NFile f) => if can_read e f && can_write e f then inr (cs, NFile f) else inl EACCES
  | inr (cs, NSpecial (SDevice f)) =>
      if can_read e f && can_write e f then inr (cs, NSpecial (SDevice f)) else inl EACCES
  | inr (_, NDir _) => inl EISDIR
  | inr (_, NSpecial (SSymlink _)) => inl ELOOP
  end.

(** [os.ReadFile(p)]: the error is the whole [*fs.PathError]. *)
Definition read_file (e : env) (s : state) (p : string) : cause + string :=
  match namei_from e s true p with
  | inl c => inl (PathErr "open" p c)
  | inr (_, NFile f) => if can_read e f then inr (f_data f) else inl (PathErr "open" p EACCES)
  | inr (_, NSpecial (SDevice f)) =>
      if can_read e f then inr (f_data f) else inl (PathErr "open" p EACCES)
  | inr (_, NDir _) => inl (PathErr "read" p EISDIR)
  | inr (_, NSpecial (SSymlink _)) => inl (PathErr "open" p ELOOP)
  end.

(* ------------------------------------------------------------------ *)
(** ** [filepath.WalkDir]

    [walk_node fuel path name n acc] is Go's [walkDir] on the entry [n]
    named [name] at [path]: the callback [cb] sees the entry first;
    [SkipDir] on a directory prunes it, [SkipDir] on a file skips the rest
    of its directory.  A directory is then read by its path, as
    [os.ReadDir(path)] does, and its entries walked in order under
    [filepath.Join(path, name)].  When the read fails, the callback is
    called a second time on the directory (with the error, which the
    callbacks of this program do not look at) and nothing more is walked.
    The callback's accumulator stands for the slice its closure appends
    to.  [fuel] bounds the depth: below the first level every directory
    read is a child of the one read before, so the height of the tree,
    plus the two first levels, is enough. *)

Inductive walk_ctl := WalkContinue | WalkSkipDir.

(** [os.ReadDir(path)]: the entries of the directory [path] resolves to. *)
Definition read_dir (e : env) (s : state) (path : string) : cause + list (string * node) :=
  match namei_from e s true path with
  | inl c => inl c
  | inr (_, NDir kids) => inr kids
  | inr _ => inl ENOTDIR
  end.

Fixpoint height (n : node) : nat :=
  match n with
  | NDir kids => S (fold_right (fun kv m => Nat.max (height (snd kv)) m) 0 kids)
  | _ => 0
  end.

Section Walk.
Context {A : Type}.
Variable cb : string -> string -> node -> A -> M (walk_ctl * A).

Fixpoint walk_node (fuel : nat) (path name : string) (n : node) (acc : A) : M (walk_ctl * A) :=
  match fuel with
  | 0 => ret (WalkContinue, acc)
  | S fuel' =>
      '(r, acc1) <- cb path name n acc ;;
      match r with
      | WalkSkipDir => if is_dir n then ret (WalkContinue, acc1) else ret (WalkSkipDir, acc1)
      | WalkContinue =>
          if negb (is_dir n) then ret (WalkContinue, acc1) else
          e <- ask ;;
          s <- get ;;
          match read_dir e s path with
          | inl _ =>
              '(_, acc2) <- cb path name n acc1 ;;   (* fn(path, d, err) *)
              ret (WalkContinue, acc2)
          | inr kids =>
              (fix loop (ks : list (string * node)) (acc2 : A) : M (walk_ctl * A) :=
                 match ks with
                 | [] => ret (WalkContinue, acc2)
                 | (nm, k) :: ks' =>
                     '(r1, acc3) <- walk_node fuel' (Join path nm) nm k acc2 ;;
                     match r1 with
                     | WalkSkipDir => ret (WalkContinue, acc3)
                     | WalkContinue => loop ks' acc3
                     end
                 end) kids acc1
          end
      end
  end.

(** [filepath.WalkDir(root, fn)]; the root entry is named by [Lstat]. *)
Definition WalkDir (root : string) (acc : A) : M A :=
  e <- ask ;;
  s <- get ;;
  match lstat e s root with
  | inl _ => raise (ErrPanic "nil DirEntry")  (* fn(root, nil, err) dereferences d *)
  | inr n =>
      '(_, acc') <- walk_node (S (S (height (s_root s)))) root (basename root) n acc ;;
      ret acc'
  end.
End Walk.

(* ------------------------------------------------------------------ *)
(** ** File selection (src/fmtd.go:187-257) *)

Definition unusable (fn : string) (c : cause) : error := ErrUnusable fn c.

(** [filepath.VolumeName] is empty on Unix. *)
Definition VolumeName (p : string) : string := "".

Definition ensureUnder (pwd fn : string) : M unit :=
  if negb (String.eqb (VolumeName fn) (VolumeName pwd)) then
    raise (unusable fn NotOnVolume)
  else
    match fn with
    | EmptyString => raise (ErrPanic "index out of range")   (* fn[0] *)
    | String c _ =>
        if Ascii.eqb c "."%char || IsAbs fn then
          e <- ask ;;
          let fnabs := Abs (e_cwd e) fn in
          if HasPrefix fnabs pwd then ret tt
          else raise (unusable fn NotUnderPWD)
        else ret tt
    end.

Definition ensureWritable (fn : string) : M unit :=
  e <- ask ;;
  s <- get ;;
  match open_rdwr e s fn with
  | inl c => raise (unusable fn c)
  | inr _ =>
      match e_fault e "close" fn with     (* f.Close() *)
      | Some c => raise (unusable fn (PathErr "close" fn c))
      | None => ret tt
      end
  end.

(** The callback given to [filepath.WalkDir] by [ensureRegular]. *)
Definition select_cb (dryrun : bool) (path name : string) (d : node)
  (filenames : list string) : M (walk_ctl * list string) :=
  match name with
  | String c _ =>
      if Ascii.eqb c "."%char then   (* skip hidden files *)
        if is_dir d then ret (WalkSkipDir, filenames) else ret (WalkContinue, filenames)
      else if negb (is_regular d) then ret (WalkContinue, filenames)
      else (if negb dryrun then ensureWritable path else ret tt) ;;;
           ret (WalkContinue, filenames ++ [path])
  | EmptyString =>
      if negb (is_regular d) then ret (WalkContinue, filenames)
      else (if negb dryrun then ensureWritable path else ret tt) ;;;
           ret (WalkContinue, filenames ++ [path])
  end.

Definition ensureRegular (pwd fn : string) (dryrun : bool) : M (list string) :=
  e <- ask ;;
  s <- get ;;
  match lstat e s fn with
  | inl c => raise (unusable fn c)
  | inr (NFile _) => ret []
  | inr (NDir _) => WalkDir (select_cb dryrun) fn []
  | inr (NSpecial _) => raise (unusable fn NotRegular)
  end.

(** [sort.Strings] of the keys of the map [uniq]: each string once, in
    byte order. *)
Fixpoint insert_uniq (x : string) (l : list string) : list string :=
  match l with
  | [] => [x]
  | y :: l' =>
      match String.compare x y with
      | Lt => x :: l
      | Eq => l
      | Gt => y :: insert_uniq x l'
      end
  end.

Definition uniqueSorted (xs : list string) : list string :=
  fold_left (fun acc x => insert_uniq x acc) xs [].

(** The loop of [Fmt] over its [filenames] (src/fmtd.go:122-140). *)
Fixpoint select_loop (pwd : string) (dryrun : bool) (filenames fns moreFns : list string)
  : M (list string * list string) :=
  match filenames with
  | [] => ret (fns, moreFns)
  | filename :: rest =>
      additional <- ensureRegular pwd filename dryrun ;;
      match additional with
      | _ :: _ => select_loop pwd dryrun rest fns (moreFns ++ additional)
      | [] =>
          ensureUnder pwd filename ;;;
          (if negb dryrun then ensureWritable filename else ret tt) ;;;
          select_loop pwd dryrun rest (fns ++ [filename]) moreFns
      end
  end.

(* ------------------------------------------------------------------ *)
(** ** The build manifest (src/fmtd.go:25-102) *)

(** Text of the Dockerfile template up to the fallback arm of the case statement (src/fmtd.go:30-91). Each double quote of the Go literal is [dq]. *)
Definition df_head : string :=
  String.concat dq [
"# syntax=docker.io/docker/dockerfile:1@sha256:42399d4635eddd7a9b8a24be879d2f9a930d0ed040a61324cfdf59ef1357b3b2


ARG BUILDIFIER_IMAGE=docker.io/whilp/buildifier@sha256:67da91fdddd40e9947153bc9157ab9103c141fcabcdbf646f040ba7a763bc531
ARG CLANGFORMAT_IMAGE=docker.io/unibeautify/clang-format@sha256:1b2d3997012ae221c600668802f1b761973d9006d330effa9555516432dea9c1
ARG GOFMT_IMAGE=docker.io/library/golang:1@sha256:4918412049183afe42f1ecaf8f5c2a88917c2eab153ce5ecf4bf2d55c1507b74
ARG SHFMT_IMAGE=docker.io/mvdan/shfmt@sha256:f0d8d9f0c9dc15eb4e76b06035e7ffc59018d08e300e0af096be481a37a7d1dc

FROM --platform=$BUILDPLATFORM $BUILDIFIER_IMAGE AS buildifier
FROM --platform=$BUILDPLATFORM $CLANGFORMAT_IMAGE AS clang-format
FROM --platform=$BUILDPLATFORM $GOFMT_IMAGE AS golang
FROM --platform=$BUILDPLATFORM $SHFMT_IMAGE AS shfmt
FROM --platform=$BUILDPLATFORM docker.io/library/alpine@sha256:21a3deaa0d32a8057914f36584b5288d2e5ecc984380bc0118285c70fa8c9300 AS alpine

# See https://github.com/Unibeautify/docker-beautifiers

FROM alpine AS tool
WORKDIR /app/b
WORKDIR /app/a
ARG YAPF_VERSION=0.31.0
ARG SQLFORMAT_VERSION=0.4.2
RUN \
  --mount=type=cache,target=/var/cache/apk ln -vs /var/cache/apk /etc/apk/cache && \
    set -ux \
 && apk add --no-cache py3-pip clang emacs jq \
 && touch /app/stdout \
 && pip3 install \
      yapf==";
"$YAPF_VERSION";
" \
      sqlparse==";
"$SQLFORMAT_VERSION";
"
COPY --from=buildifier /buildifier /usr/bin/buildifier
COPY --from=clang-format /usr/bin/clang-format /usr/bin/clang-format
COPY --from=golang /usr/local/go/bin/gofmt /usr/bin/gofmt
COPY --from=shfmt /bin/shfmt /usr/bin/shfmt

FROM tool AS product
COPY a /app/a/
RUN \
    set -ux \
 && while read -r f; do \
      f=${f#./*} \
      && \
      mkdir -p ../b/";
"$(dirname ";
"$f";
")";
" \
      && \
      case ";
"$f";
" in \
      # C / C++ / Protocol Buffers / Objective-C / Objective-C++
        *.c|*.cc|*.cpp|*.h|*.hh|*.proto|*.m|*.mm) clang-format -style=google -sort-includes ";
"$f";
" >../b/";
"$f";
" ;; \
      # Bazel / Skylark / Starlark
        BUILD|*.BUILD|*.bzl|*.sky|*.star|WORKSPACE) cp ";
"$f";
" ../b/";
"$f";
" && buildifier -lint=fix ../b/";
"$f";
" ;; \
      # JSON
        *.json) cat ";
"$f";
" | jq -S --tab . >../b/";
"$f";
" ;; \
      # Python
        *.py) yapf --style=google ";
"$f";
" >../b/";
"$f";
" ;; \
      # Shell
        *.sh) shfmt -s -p -kp ";
"$f";
" >../b/";
"$f";
" ;; \
      # SQL
        *.sql) sqlformat --keywords=upper --reindent --reindent_aligned --use_space_around_operators --comma_first True ";
"$f";
" >../b/";
"$f";
" ;; \
      # Go
        *.go) gofmt -s ";
"$f";
" >../b/";
"$f";
" ;; \
      # YAML TODO: *.yaml|*.yml)
      # Erlang TODO: *.erl)
        *) "].

(** Text of the template after the fallback arm (src/fmtd.go:91-101). *)
Definition df_tail : string :=
  String.concat dq [
" ;; \
      esac \
      && \
      if [ -f ../b/";
"$f";
" ] && diff -q ";
"$f";
" ../b/";
"$f";
" >/dev/null; then rm ../b/";
"$f";
"; fi \
      ; \
   done < <(find . -type f)

FROM scratch
COPY --from=product /app/b/ /
COPY --from=product /app/stdout /
"].

(** The command of the fallback (star) arm of the manifest's case statement. *)
Definition complaining (complain : bool) : string :=
  if complain then "echo " ++ dq ++ "! $f" ++ dq ++ " >>../stdout" else "".

Definition dockerfile (complain : bool) : string :=
  df_head ++ complaining complain ++ df_tail.

(* ------------------------------------------------------------------ *)
(** ** [buildx.New] (src/buildx/buildx.go) *)

(** The [options] struct; [ctx], [stdout], [stderr] and [env] are the
    caller's context, primary and diagnostic outputs and environment of
    the model, and are left out. *)
Record options := mkOptions {
  o_exe : string;
  o_args : list string;
  o_dockerfile : string;
  o_stdoutf : string;
  o_dirA : string;
  o_dirB : string;
  o_ifiles : list (string * string);
  o_ofilefunc : option (string -> string -> M unit)
}.

Definition Option := options -> error + options.

Definition default_options : options :=
  mkOptions "" ["build"; "--output=-"] "" "stdout" "a" "b" [] None.

(** [WithContext], [WithStdout], [WithStderr] with a non-nil context. *)
Definition WithContext : Option := fun o => inr o.
Definition WithStdout : Option := fun o => inr o.
Definition WithStderr : Option := fun o => inr o.

Definition WithExecutable (exe : string) : Option := fun o =>
  inr (mkOptions exe (o_args o) (o_dockerfile o) (o_stdoutf o) (o_dirA o) (o_dirB o)
         (o_ifiles o) (o_ofilefunc o)).

Definition WithBuildArg (arg : string) : Option := fun o =>
  inr (mkOptions (o_exe o) (o_args o ++ [("--build-arg=" ++ arg)%string]) (o_dockerfile o)
         (o_stdoutf o) (o_dirA o) (o_dirB o) (o_ifiles o) (o_ofilefunc o)).

Definition WithDockerfile (df : string) : Option := fun o =>
  inr (mkOptions (o_exe o) (o_args o) df (o_stdoutf o) (o_dirA o) (o_dirB o)
         (o_ifiles o) (o_ofilefunc o)).

Definition WithInputFile (relativePath data : string) : Option := fun o =>
  inr (mkOptions (o_exe o) (o_args o) (o_dockerfile o) (o_stdoutf o) (o_dirA o) (o_dirB o)
         (o_ifiles o ++ [(relativePath, data)]) (o_ofilefunc o)).

Definition WithOutputFileFunc (f : string -> string -> M unit) : Option := fun o =>
  inr (mkOptions (o_exe o) (o_args o) (o_dockerfile o) (o_stdoutf o) (o_dirA o) (o_dirB o)
         (o_ifiles o) (Some f)).

Fixpoint apply_opts (opts : list Option) (o : options) : error + options :=
  match opts with
  | [] => inr o
  | opt :: rest =>
      match opt o with
      | inl err => inl err
      | inr o' => apply_opts rest o'
      end
  end.

(** [tw.WriteHeader(hdr)] then [tw.Write(data)]: more bytes than the
    header's size is [ErrWriteTooLong], fewer makes the next header or
    [Close] fail. *)
Definition tar_write (name : string) (mode size : nat) (data : string)
  : error + tar_entry :=
  if Nat.eqb size (String.length data) then inr (mkEntry name mode size data)
  else inl (ErrTar "archive/tar: write too long").

Fixpoint write_ifiles (dirA : string) (ifiles : list (string * string))
  : error + list tar_entry :=
  match ifiles with
  | [] => inr []
  | (fn, data) :: rest =>
      match tar_write (Join dirA fn) 384 (String.length data) data with   (* 0600 *)
      | inl err => inl err
      | inr ent =>
          match write_ifiles dirA rest with
          | inl err => inl err
          | inr ents => inr (ent :: ents)
          end
      end
  end.

(** The InputArchive written to the engine's stdin. *)
Definition build_archive (o : options) : error + list tar_entry :=
  match tar_write "Dockerfile" 128 (String.length (o_dockerfile o)) (o_dockerfile o) with  (* 0200 *)
  | inl err => inl err
  | inr df =>
      match write_ifiles (o_dirA o) (o_ifiles o) with
      | inl err => inl err
      | inr ents => inr (df :: ents)
      end
  end.

(** [io.Copy(o.stdout, &stdoutf)]: a [bytes.Buffer] writes what it holds
    in one call, and makes no call when it is empty; a failed write is
    returned (and, in this model, delivers nothing). *)
Definition copy_out (buf : string) : M unit :=
  if String.eqb buf "" then ret tt else
  e <- ask ;;
  s <- get ;;
  match e_stdout_err e (s_stdout s) buf with
  | Some err => raise err
  | None => out buf
  end.

(** The loop over the output archive (src/buildx/buildx.go:260-291). *)
Fixpoint demux (o : options) (tr : tarstream) (stdoutf : string) : M unit :=
  match tr with
  | TEOF => copy_out stdoutf
  | TErr msg => raise (ErrTar msg)
  | TEnt name data rest =>
      if HasSuffix name "/" then demux o rest stdoutf
      else if String.eqb name (o_stdoutf o) then demux o rest (stdoutf ++ data)  (* show later *)
      else
        match o_ofilefunc o with
        | Some f =>
            let filename := TrimPrefix name (o_dirB o ++ "/") in
            f filename data ;;; demux o rest stdoutf
        | None => demux o rest stdoutf
        end
  end.

Definition New (opts : list Option) : M unit :=
  match apply_opts opts default_options with
  | inl err => raise err
  | inr o =>
      e <- ask ;;
      _ <- (if String.eqb (o_exe o) "" then
              match e_docker e with None => raise ErrNoDocker | Some x => ret x end
            else ret (o_exe o)) ;;
      if Nat.eqb (String.length (o_dockerfile o)) 0 then raise ErrNoDockerfile else
      match build_archive o with
      | inl err => raise err
      | inr archive =>
          let args := o_args o ++ ["-"] in
          modify (add_event (EvBuild args archive)) ;;;
          match e_engine e args archive with
          | RunErr re errout =>
              modify (add_stderr errout) ;;;
              if String.eqb (run_error_string re) "exit status 1"
              then raise ErrDockerBuildFailure
              else raise (ErrRun re)
          | RunOk tar errout =>
              modify (add_stderr errout) ;;;
              demux o tar ""
          end
      end
  end.

(* ------------------------------------------------------------------ *)
(** ** [buildx.OverwriteFileContents] *)

(** Bytes written at offset [off] of contents [c] (with [off <= |c|]). *)
Definition write_at (off : nat) (data c : string) : string :=
  substring 0 off c ++ data ++
  substring (off + String.length data) (String.length c - (off + String.length data)) c.

Definition truncate_node (size clock : nat) (n : node) : node :=
  match n with
  | NFile f => NFile (mkFile (substring 0 size (f_data f)) (f_mode f) (f_uid f) clock)
  | _ => n
  end.

Definition write_node (off : nat) (data : string) (clock : nat) (n : node) : node :=
  match n with
  | NFile f => NFile (mkFile (write_at off data (f_data f)) (f_mode f) (f_uid f) clock)
  | _ => n
  end.

(** The file at [cs] truncated to size 0, then [data] written at offset 0;
    each call that changes the file stamps it with the clock. *)
Definition truncate_at (cs : list string) : M unit :=
  modify (fun s => set_root (update cs (truncate_node 0 (s_clock s)) (s_root s)) s).

Definition write_to (cs : list string) (data : string) : M unit :=
  if String.eqb data "" then ret tt
  else modify (fun s => set_root (update cs (write_node 0 data (s_clock s)) (s_root s)) s).

(** A call on an open file: [Truncate] fails with EINVAL on a device. *)
Definition file_call (op filename : string) (n : node) : M unit :=
  e <- ask ;;
  match (match op, n with
         | "truncate", NSpecial (SDevice _) => Some EINVAL
         | _, _ => e_fault e op filename
         end) with
  | Some c => raise (ErrPath op filename c)
  | None => ret tt
  end.

Definition OverwriteFileContents (filename r : string) : M unit :=
  e <- ask ;;
  s <- get ;;
  match open_rdwr e s filename with     (* already exists *)
  | inl c => raise (ErrPath "open" filename c)
  | inr (cs, n) =>
      file_call "truncate" filename n ;;;                    (* f.Truncate(0) *)
      modify (add_event (EvWrite filename)) ;;;
      truncate_at cs ;;;
      file_call "seek" filename n ;;;                        (* f.Seek(0, 0) *)
      (if String.eqb r "" then ret tt else                   (* io.Copy(f, r) *)
       match e_wfault e filename with
       | Some (k, c) => write_to cs (substring 0 k r) ;;; raise (ErrPath "write" filename c)
       | None => write_to cs r
       end) ;;;
      file_call "close" filename n                           (* f.Close() *)
  end.

(* ------------------------------------------------------------------ *)
(** ** [Fmt] (src/fmtd.go:104-185) *)

(** The closure given to [WithOutputFileFunc]. *)
Definition fmt_ofile (dryrun : bool) (filename r : string) : M unit :=
  out (filename ++ nl) ;;;
  modify (set_found true) ;;;
  (if negb dryrun then OverwriteFileContents filename r else ret tt).

Fixpoint read_inputs (filenames : list string) : M (list (string * string)) :=
  match filenames with
  | [] => ret []
  | filename :: rest =>
      e <- ask ;;
      s <- get ;;
      match read_file e s filename with
      | inl c => raise (unusable filename c)
      | inr data =>
          modify (add_event (EvRead filename)) ;;;
          more <- read_inputs rest ;;
          ret ((filename, data) :: more)
      end
  end.

Definition arg_opts (environ : list string) : list Option :=
  map (fun kv => WithBuildArg (TrimPrefix kv "ARG_"))
      (filter (fun kv => HasPrefix kv "ARG_") environ).

Definition is_nil {A} (l : list A) : bool := match l with [] => true | _ => false end.

(** Everything after the selection (src/fmtd.go:143-184). *)
Definition Fmt_build (exe : string) (dryrun complain : bool) (filenames : list string)
  : M unit :=
  modify (set_found false) ;;;
  let options :=
    [WithContext; WithStdout; WithStderr; WithExecutable exe;
     WithDockerfile (dockerfile complain); WithOutputFileFunc (fmt_ofile dryrun)] in
  inputs <- read_inputs filenames ;;
  e <- ask ;;
  New (options ++ map (fun '(fn, data) => WithInputFile fn data) inputs
               ++ arg_opts (e_environ e)) ;;;
  s <- get ;;
  if dryrun && s_found s then raise ErrDryRunFoundFiles else ret tt.

Definition Fmt (pwd : string) (dryrun : bool) (filenames : list string) : M unit :=
  e <- ask ;;
  match e_docker e with
  | None => raise ErrNoDocker
  | Some exe =>
      let filenames := match filenames with [] => [pwd] | _ => filenames end in
      '(fns, moreFns) <- select_loop pwd dryrun filenames [] [] ;;
      Fmt_build exe dryrun (is_nil moreFns) (uniqueSorted (fns ++ moreFns))
  end.

(* ------------------------------------------------------------------ *)
(** ** The [product] stage of the manifest (src/fmtd.go:65-96)

    The loop [while read -r f; do ...; done < <(find . -type f)] run in
    [/app/a] over the input files.  The formatting tools are opaque:
    [tool h f data] is the exit status of the arm of handler [h] on file
    [f] and what it leaves at [../b/f].  The fallback arm runs the
    command [complaining] put in the template. *)

Inductive handler := ClangFormat | Buildifier | Jq | Yapf | Shfmt | Sqlformat | Gofmt.

Definition case_arms : list (list string * handler) :=
  [ (["*.c"; "*.cc"; "*.cpp"; "*.h"; "*.hh"; "*.proto"; "*.m"; "*.mm"], ClangFormat);
    (["BUILD"; "*.BUILD"; "*.bzl"; "*.sky"; "*.star"; "WORKSPACE"], Buildifier);
    (["*.json"], Jq);
    (["*.py"], Yapf);
    (["*.sh"], Shfmt);
    (["*.sql"], Sqlformat);
    (["*.go"], Gofmt) ].

(** A case pattern: a literal, or a star followed by a literal suffix
    (the star of a case pattern also matches slashes). *)
Definition glob_match (pat f : string) : bool :=
  match pat with
  | String "*"%char suf => HasSuffix f suf
  | _ => String.eqb pat f
  end.

Fixpoint case_dispatch_in (arms : list (list string * handler)) (f : string)
  : option handler :=
  match arms with
  | [] => None
  | (pats, h) :: rest =>
      if existsb (fun p => glob_match p f) pats then Some h else case_dispatch_in rest f
  end.

Definition case_dispatch (f : string) : option handler := case_dispatch_in case_arms f.

(** The two commands the template can put in the fallback arm: the empty
    command list succeeds and does nothing; the [echo] appends the line
    [! f] to [/app/stdout].  Exit status and the new [/app/stdout]. *)
Definition run_fallback (cmd f stdout_file : string) : option (nat * string) :=
  if String.eqb cmd "" then Some (0, stdout_file)
  else if String.eqb cmd (complaining true) then Some (0, (stdout_file ++ "! " ++ f ++ nl)%string)
  else None.

(** One iteration: [f=${f#./*} && mkdir -p ... && case ... esac && if [ -f
    ../b/"$f" ] && diff -q ...; then rm ../b/"$f"; fi].  The result is the
    exit status, what is left at [../b/f] and the new [/app/stdout]. *)
Definition product_body (cmd : string) (tool : handler -> string -> string -> nat * option string)
  (path data stdout_file : string) : option (nat * option string * string) :=
  let f := TrimPrefix path "./" in
  match case_dispatch f with
  | Some h =>
      let '(st, outb) := tool h f data in
      if Nat.eqb st 0 then
        match outb with
        | Some d' => if String.eqb d' data then Some (0, None, stdout_file)
                     else Some (0, Some d', stdout_file)
        | None => Some (0, None, stdout_file)
        end
      else Some (st, outb, stdout_file)
  | None =>
      match run_fallback cmd f stdout_file with
      | Some (st, so) => Some (st, None, so)
      | None => None
      end
  end.

(** The whole loop: its exit status is that of the last iteration (0 for
    none); a non-zero status fails the [RUN] step and the build. *)
Fixpoint product_loop (cmd : string) (tool : handler -> string -> string -> nat * option string)
  (files : list (string * string)) (status : nat) (outs : list (string * string))
  (stdout_file : string) : option (nat * list (string * string) * string) :=
  match files with
  | [] => Some (status, outs, stdout_file)
  | (path, data) :: rest =>
      match product_body cmd tool path data stdout_file with
      | None => None
      | Some (st, outb, so) =>
          let outs' := match outb with
                       | Some d => (outs ++ [(TrimPrefix path "./", d)])%list
                       | None => outs
                       end in
          product_loop cmd tool rest st outs' so
      end
  end.

(** The lines [! f] the complaining fallback arm appends to
    [/app/stdout], one for each input file no arm of the case statement
    handles, in loop order. *)
Fixpoint unhandled_lines (files : list (string * string)) : string :=
  match files with
  | [] => ""
  | (path, _) :: rest =>
      ((match case_dispatch (TrimPrefix path "./") with
        | Some _ => ""
        | None => "! " ++ TrimPrefix path "./" ++ nl
        end) ++ unhandled_lines rest)%string
  end.

(* ------------------------------------------------------------------ *)
(** ** [buildx.WithInputFiles] (src/buildx/with_input_files.go)

    The second version of [Fmt] (src/fmtd.go:277-338) hands the file
    selection to this option.  An [InputFilesOption] can only be built by
    the seven exported builders (its argument type is unexported), so the
    options are the closures of those builders. *)

Record inputfilesoptions := mkIFO {
  oo_filenames : list string;
  oo_emptyusePWD : bool;
  oo_traversedirs : bool;
  oo_under : bool;
  oo_writable : bool;
  oo_errer : string -> cause -> error;
  oo_pwd : string
}.

Inductive InputFilesOption :=
| WithFilenames (paths : list string)
| WithUseCurrentDirWhenNoPathsGiven
| WithTraverseDirectories (dotraverse : bool)
| WithEnsureUnderPWD (doensure : bool)
| WithSelectionFailureBuilder (f : string -> cause -> error)
| WithPWD (pwd : string)
| WithEnsureWritable (doensure : bool).

(** The closure each builder returns, run on [oo]. *)
Definition run_ifo (opt : InputFilesOption) (oo : inputfilesoptions) : inputfilesoptions :=
  match opt with
  | WithFilenames paths =>
      mkIFO paths (oo_emptyusePWD oo) (oo_traversedirs oo) (oo_under oo) (oo_writable oo)
            (oo_errer oo) (oo_pwd oo)
  | WithUseCurrentDirWhenNoPathsGiven =>
      mkIFO (oo_filenames oo) true true (oo_under oo) (oo_writable oo) (oo_errer oo) (oo_pwd oo)
  | WithTraverseDirectories dotraverse =>
      if negb (oo_emptyusePWD oo) then
        mkIFO (oo_filenames oo) (oo_emptyusePWD oo) dotraverse (oo_under oo) (oo_writable oo)
              (oo_errer oo) (oo_pwd oo)
      else oo
  | WithEnsureUnderPWD doensure =>
      mkIFO (oo_filenames oo) (oo_emptyusePWD oo) (oo_traversedirs oo) doensure (oo_writable oo)
            (oo_errer oo) (oo_pwd oo)
  | WithSelectionFailureBuilder f =>
      mkIFO (oo_filenames oo) (oo_emptyusePWD oo) (oo_traversedirs oo) (oo_under oo) (oo_writable oo)
            f (oo_pwd oo)
  | WithPWD pwd =>
      mkIFO (oo_filenames oo) (oo_emptyusePWD oo) (oo_traversedirs oo) (oo_under oo) (oo_writable oo)
            (oo_errer oo) pwd
  | WithEnsureWritable doensure =>
      mkIFO (oo_filenames oo) (oo_emptyusePWD oo) (oo_traversedirs oo) (oo_under oo) doensure
            (oo_errer oo) (oo_pwd oo)
  end.

(** [for _, opt := range opts { opt(oo) }] *)
Definition apply_ifo (opts : list InputFilesOption) (oo : inputfilesoptions) : inputfilesoptions :=
  fold_left (fun oo opt => run_ifo opt oo) opts oo.

(** The method [ensureUnder] of [inputfilesoptions]. *)
Definition ensureUnder_oo (oo : inputfilesoptions) (fn : string) : M unit :=
  if negb (String.eqb (VolumeName fn) (VolumeName (oo_pwd oo))) then
    raise (oo_errer oo fn NotOnVolume)
  else
    match fn with
    | EmptyString => raise (ErrPanic "index out of range")   (* fn[0] *)
    | String c _ =>
        if Ascii.eqb c "."%char || IsAbs fn then
          e <- ask ;;
          let fnabs := Abs (e_cwd e) fn in
          if HasPrefix fnabs (oo_pwd oo) then ret tt
          else raise (oo_errer oo fn NotUnderPWD)
        else ret tt
    end.

(** The method [ensureWritable] of [inputfilesoptions]. *)
Definition ensureWritable_oo (oo : inputfilesoptions) (fn : string) : M unit :=
  e <- ask ;;
  s <- get ;;
  match open_rdwr e s fn with
  | inl c => raise (oo_errer oo fn c)
  | inr _ =>
      match e_fault e "close" fn with     (* f.Close() *)
      | Some c => raise (oo_errer oo fn (PathErr "close" fn c))
      | None => ret tt
      end
  end.

(** The callback of [filepath.WalkDir] in the method [ensureRegular]. *)
Definition select_cb_oo (oo : inputfilesoptions) (path name : string) (d : node)
  (filenames : list string) : M (walk_ctl * list string) :=
  match name with
  | String c _ =>
      if Ascii.eqb c "."%char then   (* skip hidden files *)
        if is_dir d then ret (WalkSkipDir, filenames) else ret (WalkContinue, filenames)
      else if negb (is_regular d) then ret (WalkContinue, filenames)
      else (if oo_writable oo then ensureWritable_oo oo path else ret tt) ;;;
           ret (WalkContinue, filenames ++ [path])
  | EmptyString =>
      if negb (is_regular d) then ret (WalkContinue, filenames)
      else (if oo_writable oo then ensureWritable_oo oo path else ret tt) ;;;
           ret (WalkContinue, filenames ++ [path])
  end.

(** The method [ensureRegular] of [inputfilesoptions]. *)
Definition ensureRegular_oo (oo : inputfilesoptions) (fn : string) : M (list string) :=
  e <- ask ;;
  s <- get ;;
  match lstat e s fn with
  | inl c => raise (oo_errer oo fn c)
  | inr (NFile _) => ret []
  | inr (NDir _) =>
      if oo_traversedirs oo then WalkDir (select_cb_oo oo) fn []
      else raise (oo_errer oo fn NotRegular)
  | inr (NSpecial _) => raise (oo_errer oo fn NotRegular)
  end.

(** The selection loop of the returned [Option]
    (src/buildx/with_input_files.go:85-108); [fns] is a local slice, so
    appending [filename] before or after the two checks is the same. *)
Fixpoint select_loop_oo (oo : inputfilesoptions) (filenames fns moreFns : list string)
  : M (list string * list string) :=
  match filenames with
  | [] => ret (fns, moreFns)
  | filename :: rest =>
      additional <- ensureRegular_oo oo filename ;;
      match additional with
      | _ :: _ => select_loop_oo oo rest fns (moreFns ++ additional)
      | [] =>
          (if oo_under oo then ensureUnder_oo oo filename else ret tt) ;;;
          (if oo_writable oo then ensureWritable_oo oo filename else ret tt) ;;;
          select_loop_oo oo rest (fns ++ [filename]) moreFns
      end
  end.

(** The reading loop of the returned [Option]
    (src/buildx/with_input_files.go:112-120). *)
Fixpoint read_into (oo : inputfilesoptions) (filenames : list string) (o : options) : M options :=
  match filenames with
  | [] => ret o
  | filename :: rest =>
      e <- ask ;;
      s <- get ;;
      match read_file e s filename with
      | inl c => raise (oo_errer oo filename c)
      | inr data =>
          modify (add_event (EvRead filename)) ;;;
          match WithInputFile filename data o with
          | inl err => raise err
          | inr o' => read_into oo rest o'
          end
      end
  end.

(** Go's [ErrEmptyPWDForInputFiles] (an [errors.New] value) and the error
    the default [errer] returns unchanged are values the [error] type of
    this model has no constructor for; they are parameters. *)
Section InputFiles.
Variable ErrEmptyPWDForInputFiles : error.
Variable unwrapped : cause -> error.

(** [&inputfilesoptions{...}] with the default [errer]. *)
Definition ifo_init : inputfilesoptions :=
  mkIFO [] false false false false (fun _ err => unwrapped err) "".

(** [WithInputFiles(opts...)] applied to the [options] of [New]: the new
    [options] and the value stored in [o.foundFilenamesByTraversingDirs]. *)
Definition WithInputFiles (opts : list InputFilesOption) (o : options) : M (bool * options) :=
  let oo := apply_ifo opts ifo_init in
  if String.eqb (oo_pwd oo) "" then raise ErrEmptyPWDForInputFiles else
  let filenames :=
    if oo_emptyusePWD oo && is_nil (oo_filenames oo) then oo_filenames oo ++ [oo_pwd oo]
    else oo_filenames oo in
  '(fns, moreFns) <- select_loop_oo oo filenames [] [] ;;
  o' <- read_into oo (uniqueSorted (fns ++ moreFns)) o ;;
  ret (negb (is_nil moreFns), o').
End InputFiles.

(** The input-file options of the second [Fmt] (src/fmtd.go:294-305). *)
Definition fmt2_input_files (pwd : string) (dryrun : bool) (filenames : list string)
  : list InputFilesOption :=
  [WithPWD pwd; WithFilenames filenames; WithUseCurrentDirWhenNoPathsGiven;
   WithTraverseDirectories true; WithEnsureUnderPWD true; WithEnsureWritable (negb dryrun);
   WithSelectionFailureBuilder unusable].

(* ------------------------------------------------------------------ *)
(** ** Auxiliary definitions for the proofs *)

(** ** Read-only computations

    [ro P m]: [m] leaves the state as it found it, and every error it
    raises satisfies [P]. *)
Definition ro (P : error -> Prop) {A} (m : M A) : Prop :=
  forall e s, snd (m e s) = s /\ (forall err, fst (m e s) = inl err -> P err).

(** The usability errors: [unusable(fn, err)]. *)
Definition usability (err : error) : Prop := exists fn c, err = ErrUnusable fn c.

(** ** Induction on file-system trees *)
Section NodeInd.
Variable P : node -> Prop.
Hypothesis HF : forall f, P (NFile f).
Hypothesis HD : forall kids, (forall nm k, In (nm, k) kids -> P k) -> P (NDir kids).
Hypothesis HS : forall sp, P (NSpecial sp).

Fixpoint node_ind' (n : node) : P n :=
  match n with
  | NFile f => HF f
  | NSpecial sp => HS sp
  | NDir kids =>
      HD kids
        ((fix go (ks : list (string * node)) : forall nm k, In (nm, k) ks -> P k :=
            match ks return forall nm k, In (nm, k) ks -> P k with
            | [] => fun nm k H => match H with end
            | (nm', k') :: ks' => fun nm k H =>
                match H with
                | or_introl E =>
                    match E in _ = p return P (snd p) with eq_refl => node_ind' k' end
                | or_intror H' => go ks' nm k H'
                end
            end) kids)
  end.
End NodeInd.

(** [diverge a b]: the component lists [a] and [b] name two nodes of
    which neither lies on the path to the other. *)
Fixpoint diverge (a b : list string) : bool :=
  match a, b with
  | c :: a', d :: b' => if String.eqb c d then diverge a' b' else true
  | _, _ => false
  end.

(** The tree with the contents and modification times of files erased:
    which paths exist, of which kind, with which mode and owner. *)
Fixpoint shape (n : node) : node :=
  match n with
  | NFile f => NFile (mkFile "" (f_mode f) (f_uid f) 0)
  | NDir kids => NDir (map (fun '(k, v) => (k, shape v)) kids)
  | NSpecial sp => NSpecial sp
  end.

(** A regular file given the contents [x] and the modification time [clock]. *)
Definition overwrite_node (x : string) (clock : nat) (n : node) : node :=
  match n with
  | NFile f => NFile (mkFile x (f_mode f) (f_uid f) clock)
  | _ => n
  end.

(** ** The output archive as the demultiplexer sees it *)


(** The names of the entries handed to the output-file function: not a
    directory, not the stdout entry [stdoutf], up to the first read error. *)
Fixpoint perfile_names (stdoutf : string) (tr : tarstream) : list string :=
  match tr with
  | TEnt name _ rest =>
      if HasSuffix name "/" then perfile_names stdoutf rest
      else if String.eqb name stdoutf then perfile_names stdoutf rest
      else name :: perfile_names stdoutf rest
  | _ => []
  end.




(** An option that always succeeds and keeps the output-file function,
    the stdout entry's name and the manifest. *)
Definition keeps_out (opt : Option) : Prop :=
  forall o, exists o', opt o = inr o' /\ o_ofilefunc o' = o_ofilefunc o /\ o_stdoutf o' = o_stdoutf o /\
                       o_dockerfile o' = o_dockerfile o.

(** The events [evs] appended to the trace of [s]. *)
Definition app_trace (evs : list event) (s : state) : state :=
  mkState (s_root s) (s_stdout s) (s_stderr s) (s_trace s ++ evs) (s_clock s) (s_found s).

(* ------------------------------------------------------------------ *)
(** ** A sample file system for the concrete runs

    [/w] is the working directory (and [$PWD]); [/t] lies outside it. *)

Definition demo_file (d : string) : node := NFile (mkFile d 384 1000 0).  (* 0600 *)

Definition demo_root : node :=
  NDir [ ("t", NDir [("f.json", demo_file "{ }")]);
         ("w", NDir [ (".hidden", NDir [("h.json", demo_file "{ }")]);
                      ("sub", NDir [("y.json", demo_file "{ }")]);
                      ("x.json", demo_file "{ }");
                      ("x.xyz", demo_file "bla") ]) ].

(** The same working directory with only [x.json] and a symbolic link
    [l.json] to it. *)
Definition link_root : node :=
  NDir [ ("t", NDir [("f.json", demo_file "{ }")]);
         ("w", NDir [ ("l.json", NSpecial (SSymlink "x.json"));
                      ("x.json", demo_file "{ }") ]) ].

Definition link_state : state := mkState link_root [] "" [] 7 false.

(** An engine that answers every build with the archive [tr]. *)
Definition demo_engine (tr : tarstream) : list string -> list tar_entry -> engine_result :=
  fun _ _ => RunOk tr "".

Definition demo_env (eng : list string -> list tar_entry -> engine_result) : env :=
  mkEnv "/w" 1000 (Some "/usr/bin/docker") [] eng (fun _ _ => None) (fun _ => None) (fun _ _ => None).

Definition demo_state : state := mkState demo_root [] "" [] 7 false.


(** The options [Fmt] passes for a non-dry run, with no input file. *)
Definition fmt_options (dryrun : bool) : options :=
  mkOptions "/usr/bin/docker" ["build"; "--output=-"] (dockerfile true) "stdout" "a" "b" []
    (Some (fmt_ofile dryrun)).

(** The output archive of a run that reformatted [x.json]. *)
Definition json_output : tarstream := TEnt "x.json" ("{}" ++ nl) TEOF.



(** The output archive of a run that changed nothing. *)
Definition empty_output : tarstream := TEnt "stdout" "" TEOF.

(** A formatting tool that succeeds and leaves its input unchanged. *)
Definition identity_tool (h : handler) (f data : string) : nat * option string := (0, Some data).

(** An engine whose run fails with [re]. *)
Definition failing_engine (re : run_error) : list string -> list tar_entry -> engine_result :=
  fun _ _ => RunErr re "ERROR: failed to solve".

(** An environment with a build argument and another variable. *)
Definition arg_env : env :=
  mkEnv "/w" 1000 (Some "/usr/bin/docker") ["ARG_X=1"; "PATH=/bin"] (demo_engine empty_output)
    (fun _ _ => None) (fun _ => None) (fun _ _ => None).


(** A formatting tool that rewrites [{] to [{}] and leaves other contents as they are. *)
Definition brace_tool (h : handler) (f data : string) : nat * option string :=
  if String.eqb data "{" then (0, Some "{}") else (0, Some data).

(* ================================================================== *)

(** * Proofs *)

Example clean_ex1 : Clean "a/./x.json" = "a/x.json". Proof. reflexivity. Qed.
Example clean_ex2 : Clean "a/sub/../../x" = "x". Proof. reflexivity. Qed.
Example clean_ex3 : Clean "/../t//f" = "/t/f". Proof. reflexivity. Qed.
Example join_ex : Join "a" "/w/x.json" = "a/w/x.json". Proof. reflexivity. Qed.
Example abs_ex : Abs "/w" "./x.json" = "/w/x.json". Proof. reflexivity. Qed.
Example base_ex1 : basename "." = ".". Proof. reflexivity. Qed.
Example base_ex2 : basename "/w/d/" = "d". Proof. reflexivity. Qed.
Example trim_ex : TrimPrefix "b/x.json" "b/" = "x.json". Proof. reflexivity. Qed.

Example itoa_ex : run_error_string (RExit 1) = "exit status 1". Proof. reflexivity. Qed.
Example itoa_ex2 : run_error_string (RExit 125) = "exit status 125". Proof. reflexivity. Qed.


Lemma ro_ret {A} P (a : A) : ro P (ret a).
Proof. intros e s; split; [reflexivity | discriminate]. Qed.

Lemma ro_raise {A} (P : error -> Prop) err : P err -> ro P (@raise A err).
Proof. intros HP e s; split; [reflexivity | intros err' H; inversion H; subst; exact HP]. Qed.

Lemma ro_ask P : ro P ask.
Proof. intros e s; split; [reflexivity | discriminate]. Qed.

Lemma ro_get P : ro P get.
Proof. intros e s; split; [reflexivity | discriminate]. Qed.

Lemma ro_bind {A B} P (m : M A) (k : A -> M B) :
  ro P m -> (forall a, ro P (k a)) -> ro P (bind m k).
Proof.
  intros Hm Hk e s. unfold bind.
  destruct (Hm e s) as [H1 H2].
  destruct (m e s) as [[err|a] s'] eqn:E; simpl in *; subst.
  - split; [reflexivity|]. intros err' H; inversion H; subst; auto.
  - apply Hk.
Qed.

Create HintDb ro.
Lemma ro_bind_at {A B} (P : error -> Prop) (m : M A) (k : A -> M B) e s :
  snd (m e s) = s -> (forall err, fst (m e s) = inl err -> P err) ->
  (forall a, fst (m e s) = inr a -> snd (k a e s) = s /\ forall err, fst (k a e s) = inl err -> P err) ->
  snd (bind m k e s) = s /\ (forall err, fst (bind m k e s) = inl err -> P err).
Proof.
  intros H1 H2 H3. unfold bind.
  destruct (m e s) as [[err|a] s'] eqn:E; simpl in *; subst.
  - split; [reflexivity|]. intros err' H; inversion H; subst; auto.
  - apply H3; reflexivity.
Qed.

#[local] Hint Resolve ro_ret ro_ask ro_get : ro.

(** ** The selection phase reads and never writes *)

Lemma walk_node_ro {A} (P : error -> Prop) (cb : string -> string -> node -> A -> M (walk_ctl * A)) :
  (forall path name n acc, ro P (cb path name n acc)) ->
  forall fuel n path name acc, ro P (walk_node cb fuel path name n acc).
Proof.
  intros Hcb fuel. induction fuel as [|fuel IH]; intros n path name acc; [apply ro_ret|].
  cbn [walk_node]. apply ro_bind; [apply Hcb|]. intros [[|] acc1]; [|destruct (is_dir n); apply ro_ret].
  destruct (negb (is_dir n)); [apply ro_ret|].
  apply ro_bind; [apply ro_ask|]; intros e. apply ro_bind; [apply ro_get|]; intros s.
  destruct (read_dir e s path) as [c|kids].
  - apply ro_bind; [apply Hcb|]. intros [? ?]; apply ro_ret.
  - revert acc1. induction kids as [|[nm k] ks IHks]; intros acc1; [apply ro_ret|].
    apply ro_bind; [apply IH|]. intros [[|] acc3]; [apply IHks|apply ro_ret].
Qed.

Lemma ensureWritable_ro fn : ro usability (ensureWritable fn).
Proof.
  unfold ensureWritable. apply ro_bind; [apply ro_ask|]; intros e.
  apply ro_bind; [apply ro_get|]; intros s.
  destruct (open_rdwr e s fn) as [c|f].
  - apply ro_raise. eexists _, _; reflexivity.
  - destruct (e_fault e "close" fn); [apply ro_raise; eexists _, _; reflexivity|apply ro_ret].
Qed.

Lemma select_cb_ro dryrun path name d acc : ro usability (select_cb dryrun path name d acc).
Proof.
  unfold select_cb.
  assert (Hw : ro usability ((if negb dryrun then ensureWritable path else ret tt) ;;;
                             ret (WalkContinue, acc ++ [path]))).
  { apply ro_bind; [destruct (negb dryrun); [apply ensureWritable_ro|apply ro_ret]|].
    intros _; apply ro_ret. }
  destruct name as [|c name'].
  - destruct (negb (is_regular d)); [apply ro_ret|exact Hw].
  - destruct (Ascii.eqb c "."%char); [destruct (is_dir d); apply ro_ret|].
    destruct (negb (is_regular d)); [apply ro_ret|exact Hw].
Qed.

Lemma ensureRegular_spec pwd fn dryrun e s :
  snd (ensureRegular pwd fn dryrun e s) = s /\
  (forall err, fst (ensureRegular pwd fn dryrun e s) = inl err -> usability err) /\
  (forall l, fst (ensureRegular pwd fn dryrun e s) = inr l -> fn <> "").
Proof.
  unfold ensureRegular, bind, ask, get; simpl.
  destruct (lstat e s fn) as [c|n] eqn:Hl.
  - simpl. split; [reflexivity|split]; [intros err H; inversion H; eexists _, _; reflexivity|discriminate].
  - assert (Hne : fn <> "").
    { intros ->. unfold lstat, namei_from in Hl. simpl in Hl. discriminate. }
    destruct n as [f|kids|sp].
    + simpl. split; [reflexivity|split]; [discriminate|auto].
    + unfold WalkDir, bind, ask, get. rewrite Hl.
      destruct (walk_node_ro usability (select_cb dryrun) (select_cb_ro dryrun)
                  (S (S (height (s_root s)))) (NDir kids) fn (basename fn) [] e s) as [H1 H2].
      destruct (walk_node (select_cb dryrun) (S (S (height (s_root s)))) fn (basename fn) (NDir kids) [] e s)
        as [[err|[r acc]] s'] eqn:E; simpl in *; subst.
      * split; [reflexivity|split]; [|discriminate]. intros err' H; inversion H; subst. apply H2; reflexivity.
      * split; [reflexivity|split]; [discriminate|auto].
    + simpl. split; [reflexivity|split]; [intros err H; inversion H; eexists _, _; reflexivity|discriminate].
Qed.

Lemma ensureUnder_ro pwd fn : fn <> "" -> ro usability (ensureUnder pwd fn).
Proof.
  intros Hne. unfold ensureUnder. simpl.
  destruct fn as [|c fn']; [congruence|].
  destruct (Ascii.eqb c "."%char || IsAbs (String c fn')).
  - apply ro_bind; [apply ro_ask|]; intros e.
    destruct (HasPrefix (Abs (e_cwd e) (String c fn')) pwd);
      [apply ro_ret|apply ro_raise; eexists _, _; reflexivity].
  - apply ro_ret.
Qed.

Lemma select_loop_ro pwd dryrun filenames fns moreFns :
  ro usability (select_loop pwd dryrun filenames fns moreFns).
Proof.
  revert fns moreFns. induction filenames as [|filename rest IH]; intros fns moreFns e s.
  - split; [reflexivity|discriminate].
  - cbn [select_loop].
    destruct (ensureRegular_spec pwd filename dryrun e s) as [H1 [H2 H3]].
    apply ro_bind_at; auto.
    intros [|x l'] Hl.
    + apply ro_bind; [apply ensureUnder_ro; eapply H3; exact Hl|]. intros _.
      apply ro_bind; [destruct (negb dryrun); [apply ensureWritable_ro|apply ro_ret]|].
      intros _. apply IH.
    + apply IH.
Qed.

(** ** C3: a failed eligibility check stops the run with no effect *)

(** C3. When some eligibility check of the selection loop (regular file,
    under [$PWD], writable) fails, [Fmt] returns that error, which is a
    usability error, and the final state is the initial one: no file was
    read (no [EvRead]), no engine was run (no [EvBuild]), nothing was
    written (same tree, same outputs). *)
Theorem Fmt_selection_failure_no_effect pwd dryrun filenames e s exe err s1 :
  e_docker e = Some exe ->
  select_loop pwd dryrun (match filenames with [] => [pwd] | _ => filenames end) [] [] e s
    = (inl err, s1) ->
  Fmt pwd dryrun filenames e s = (inl err, s) /\ usability err.
Proof.
  intros Hd Hsel.
  destruct (select_loop_ro pwd dryrun (match filenames with [] => [pwd] | _ => filenames end) [] [] e s)
    as [H1 H2].
  rewrite Hsel in H1, H2. simpl in H1. subst s1.
  split; [|apply H2; reflexivity].
  unfold Fmt, bind, ask. rewrite Hd. rewrite Hsel. reflexivity.
Qed.

Lemma Fmt_selection_failure_no_effect_witness :
  e_docker (demo_env (demo_engine TEOF)) = Some "/usr/bin/docker" /\
  select_loop "/w" false ["missing"] [] [] (demo_env (demo_engine TEOF)) demo_state
    = (inl (ErrUnusable "missing" ENOENT), demo_state) /\
  (Fmt "/w" false ["missing"] (demo_env (demo_engine TEOF)) demo_state
     = (inl (ErrUnusable "missing" ENOENT), demo_state) /\ usability (ErrUnusable "missing" ENOENT)).
Proof.
  split; [reflexivity|split; [vm_compute; reflexivity|]].
  apply (Fmt_selection_failure_no_effect "/w" false ["missing"] (demo_env (demo_engine TEOF))
           demo_state "/usr/bin/docker" (ErrUnusable "missing" ENOENT) demo_state);
    [reflexivity|vm_compute; reflexivity].
Defined.

(** ** C7: how an engine failure is reported *)

(** C7. (1) When the engine run fails, [New] returns
    [ErrDockerBuildFailure] exactly when the failure renders as
    ["exit status 1"], and otherwise the failure itself ([ErrRun re]);
    (2) with no executable given and none found by [LookPath], [New]
    returns [ErrNoDocker] and does nothing; (3) so does [Fmt] when no
    [docker] executable is found. *)
Theorem New_engine_failure_classified :
  (forall opts o archive e s re errout,
     apply_opts opts default_options = inr o ->
     (o_exe o <> "" \/ e_docker e <> None) ->
     String.length (o_dockerfile o) <> 0 ->
     build_archive o = inr archive ->
     e_engine e (o_args o ++ ["-"]) archive = RunErr re errout ->
     fst (New opts e s) =
       inl (if String.eqb (run_error_string re) "exit status 1"
            then ErrDockerBuildFailure else ErrRun re)) /\
  (forall opts o e s,
     apply_opts opts default_options = inr o -> o_exe o = "" -> e_docker e = None ->
     New opts e s = (inl ErrNoDocker, s)) /\
  (forall pwd dryrun filenames e s,
     e_docker e = None -> Fmt pwd dryrun filenames e s = (inl ErrNoDocker, s)).
Proof.
  split; [|split].
  - intros opts o archive e s re errout Happ Hexe Hdf Har Heng.
    unfold New. rewrite Happ. unfold bind, ask at 1.
    assert (Hx : exists x, (if String.eqb (o_exe o) "" then
                   match e_docker e with None => raise ErrNoDocker | Some x => ret x end
                 else ret (o_exe o)) e s = (inr x, s)).
    { destruct (String.eqb (o_exe o) "") eqn:E.
      - apply String.eqb_eq in E. destruct Hexe as [Hexe|Hexe]; [congruence|].
        destruct (e_docker e) as [x|]; [exists x; reflexivity|congruence].
      - exists (o_exe o); reflexivity. }
    destruct Hx as [x Hx]. rewrite Hx.
    apply Nat.eqb_neq in Hdf. rewrite Hdf. rewrite Har.
    unfold modify. simpl. rewrite Heng. simpl.
    destruct (String.eqb (run_error_string re) "exit status 1"); reflexivity.
  - intros opts o e s Happ Hexe Hd.
    unfold New. rewrite Happ. unfold bind, ask. rewrite Hexe, Hd. reflexivity.
  - intros pwd dryrun filenames e s Hd. unfold Fmt, bind, ask. rewrite Hd. reflexivity.
Qed.

Lemma New_engine_failure_classified_witness :
  let opts := [WithExecutable "/usr/bin/docker"; WithDockerfile "FROM x"] in
  let o := mkOptions "/usr/bin/docker" ["build"; "--output=-"] "FROM x" "stdout" "a" "b" [] None in
  let ar := [mkEntry "Dockerfile" 128 6 "FROM x"] in
  let e := demo_env (failing_engine (RExit 1)) in
  apply_opts opts default_options = inr o /\
  build_archive o = inr ar /\
  fst (New opts e demo_state) = inl ErrDockerBuildFailure /\
  Fmt "/w" true [] (mkEnv "/w" 1000 None [] (demo_engine TEOF) (fun _ _ => None) (fun _ => None) (fun _ _ => None)) demo_state
    = (inl ErrNoDocker, demo_state).
Proof.
  intros opts o ar e.
  split; [reflexivity|split; [reflexivity|split]].
  - apply (proj1 New_engine_failure_classified opts o ar e demo_state (RExit 1) "ERROR: failed to solve");
      [reflexivity|left; discriminate|discriminate|reflexivity|reflexivity].
  - apply (proj2 (proj2 New_engine_failure_classified)). reflexivity.
Defined.

(** ** [OverwriteFileContents] *)

Lemma find_kid_update_same c h kids :
  find_kid c (update_kid c h kids) = option_map h (find_kid c kids).
Proof.
  induction kids as [|[k v] r IH]; [reflexivity|]. simpl.
  destruct (String.eqb k c) eqn:E; simpl; rewrite ?E; [reflexivity|exact IH].
Qed.

Lemma find_kid_update_other c c' h kids :
  String.eqb c' c = false -> find_kid c' (update_kid c h kids) = find_kid c' kids.
Proof.
  intros Hne. induction kids as [|[k v] r IH]; [reflexivity|]. simpl.
  destruct (String.eqb k c) eqn:E; simpl.
  - apply String.eqb_eq in E; subst k. rewrite String.eqb_sym, Hne. reflexivity.
  - rewrite IH. reflexivity.
Qed.

Lemma lookup_update_same cs g n m :
  lookup cs n = LFound m -> lookup cs (update cs g n) = LFound (g m).
Proof.
  revert n. induction cs as [|c cs' IH]; intros n H; simpl in *.
  - inversion H; reflexivity.
  - destruct n as [f|kids|sp]; try discriminate.
    rewrite find_kid_update_same.
    destruct (find_kid c kids) as [n'|]; [|discriminate]. simpl. apply IH; exact H.
Qed.

Lemma lookup_update_other cs cs' g n :
  diverge cs' cs = true -> lookup cs' (update cs g n) = lookup cs' n.
Proof.
  revert cs' n. induction cs as [|c cs IH]; intros cs' n H.
  - destruct cs'; discriminate.
  - destruct cs' as [|c' cs'']; [discriminate|]. simpl in H |- *.
    destruct n as [f|kids|sp]; [reflexivity| |reflexivity].
    destruct (String.eqb c' c) eqn:E.
    + apply String.eqb_eq in E; subst c'. rewrite find_kid_update_same.
      destruct (find_kid c kids) as [n'|]; [simpl; apply IH; exact H|reflexivity].
    + rewrite find_kid_update_other by exact E. reflexivity.
Qed.

Lemma append_empty_r (x : string) : (x ++ "")%string = x.
Proof. induction x as [|c x IH]; simpl; [reflexivity|rewrite IH; reflexivity]. Qed.

Lemma append_assoc_str (x y z : string) : (x ++ (y ++ z))%string = ((x ++ y) ++ z)%string.
Proof. induction x as [|c x IH]; simpl; [reflexivity|rewrite IH; reflexivity]. Qed.

Lemma substring_empty n m : substring n m "" = "".
Proof. destruct n, m; reflexivity. Qed.

Lemma namei_go_lookup k root follow cur cs p n :
  (forall cur' cs' p' n', k cur' cs' = inr (p', n') -> lookup p' root = LFound n') ->
  namei_go k root follow cur cs = inr (p, n) -> lookup p root = LFound n.
Proof.
  intros Hk. revert cur. induction cs as [|c rest IH]; intros cur H; simpl in H;
    destruct (lookup cur root) as [m| |] eqn:L; try discriminate.
  - inversion H; subst. exact L.
  - destruct m as [f|kids|sp]; try discriminate.
    destruct (String.eqb c "" || String.eqb c "."); [apply IH in H; exact H|].
    destruct (String.eqb c ".."); [apply IH in H; exact H|].
    destruct (find_kid c kids) as [[f|kids'|[tg|f]]|]; try discriminate;
      try (apply IH in H; exact H).
    destruct (match rest with [] => follow | _ => true end); [|apply IH in H; exact H].
    destruct (String.eqb tg ""); [discriminate|]. apply Hk in H; exact H.
Qed.

Lemma namei_lookup links root follow cur cs p n :
  namei links root follow cur cs = inr (p, n) -> lookup p root = LFound n.
Proof.
  revert cur cs p n. induction links as [|l IH]; intros cur cs p n; simpl; apply namei_go_lookup;
    intros cur' cs' p' n' H; [discriminate|apply IH in H; exact H].
Qed.

Lemma open_rdwr_lookup e s p cs n :
  open_rdwr e s p = inr (cs, n) -> lookup cs (s_root s) = LFound n.
Proof.
  unfold open_rdwr, namei_from. destruct (String.eqb p ""); [discriminate|].
  destruct (namei 40 _ _ _ _) as [c|[cs' [f|kids|[tg|f]]]] eqn:Hn; try discriminate;
    try (destruct (can_read e f && can_write e f); [|discriminate]);
    intros H; inversion H; subst; eapply namei_lookup; exact Hn.
Qed.

Lemma update_ext cs g g' n : (forall m, g m = g' m) -> update cs g n = update cs g' n.
Proof.
  intros Hg. revert n. induction cs as [|c cs IH]; intros n; simpl; [apply Hg|].
  destruct n as [f|kids|sp]; [reflexivity| |reflexivity]. f_equal.
  induction kids as [|[k v] r IHr]; [reflexivity|]. simpl.
  destruct (String.eqb k c); [rewrite IH; reflexivity|rewrite IHr; reflexivity].
Qed.

Lemma update_compose cs g h n : update cs g (update cs h n) = update cs (fun m => g (h m)) n.
Proof.
  revert n. induction cs as [|c cs IH]; intros n; simpl; [reflexivity|].
  destruct n as [f|kids|sp]; [reflexivity| |reflexivity]. f_equal.
  induction kids as [|[k v] r IHr]; [reflexivity|]. simpl.
  destruct (String.eqb k c) eqn:E; simpl; rewrite ?E; [rewrite IH; reflexivity|rewrite IHr; reflexivity].
Qed.

Lemma shape_update cs g n : (forall m, shape (g m) = shape m) -> shape (update cs g n) = shape n.
Proof.
  intros Hg. revert n. induction cs as [|c cs IH]; intros n; simpl; [apply Hg|].
  destruct n as [f|kids|sp]; [reflexivity| |reflexivity]. simpl. f_equal.
  induction kids as [|[k v] r IHr]; [reflexivity|]. simpl.
  destruct (String.eqb k c); simpl; [rewrite IH; reflexivity|rewrite IHr; reflexivity].
Qed.

Lemma shape_overwrite x clock n : shape (overwrite_node x clock n) = shape n.
Proof. destruct n; reflexivity. Qed.

Lemma substring_0_0 x : substring 0 0 x = "".
Proof. destruct x; reflexivity. Qed.

Lemma truncate_then_write x clock n :
  write_node 0 x clock (truncate_node 0 clock n) = overwrite_node x clock n.
Proof.
  destruct n as [f| |]; try reflexivity. simpl. unfold write_at.
  rewrite !substring_0_0, substring_empty. simpl. rewrite append_empty_r. reflexivity.
Qed.

Lemma truncate_is_overwrite clock n : truncate_node 0 clock n = overwrite_node "" clock n.
Proof. destruct n as [f| |]; try reflexivity. simpl. rewrite substring_0_0. reflexivity. Qed.

Lemma open_rdwr_cases e s p cs n :
  open_rdwr e s p = inr (cs, n) ->
  exists f, (n = NFile f \/ n = NSpecial (SDevice f)) /\ can_read e f = true /\ can_write e f = true.
Proof.
  unfold open_rdwr. destruct (namei_from e s true p) as [c|[cs' [f|kids|[tg|f]]]]; try discriminate;
    destruct (can_read e f) eqn:Hr, (can_write e f) eqn:Hw; simpl; try discriminate;
    intros H; inversion H; subst; exists f; (split; [|split; assumption]); [left|right]; reflexivity.
Qed.

(** What [OverwriteFileContents] does: it stops on a failed open or
    truncation with no effect; otherwise the opened file is a regular
    file, and it is left holding a prefix of [r] (all of [r] when the call
    succeeds), stamped with the clock, after the write is recorded. *)
Lemma OverwriteFileContents_effect filename r e s :
  (exists c, open_rdwr e s filename = inl c /\
     OverwriteFileContents filename r e s = (inl (ErrPath "open" filename c), s)) \/
  (exists c, OverwriteFileContents filename r e s = (inl (ErrPath "truncate" filename c), s)) \/
  (exists cs f x,
     open_rdwr e s filename = inr (cs, NFile f) /\
     (x = r \/ exists k, x = substring 0 k r) /\
     snd (OverwriteFileContents filename r e s)
       = set_root (update cs (overwrite_node x (s_clock s)) (s_root s))
                  (add_event (EvWrite filename) s) /\
     (fst (OverwriteFileContents filename r e s) = inr tt -> x = r)).
Proof.
  unfold OverwriteFileContents, file_call, truncate_at, write_to, bind, ask, get, modify, raise, ret.
  destruct (open_rdwr e s filename) as [c|[cs n]] eqn:Ho; [left; exists c; split; reflexivity|].
  right. destruct n as [f|kids|[tg|f]]; simpl.
  3:{ destruct (open_rdwr_cases e s filename cs (NSpecial (SSymlink tg)) Ho) as [? [[?|?] _]]; discriminate. }
  2:{ destruct (open_rdwr_cases e s filename cs (NDir kids) Ho) as [? [[?|?] _]]; discriminate. }
  2:{ left; eexists; reflexivity. }
  destruct (e_fault e "truncate" filename) as [c|]; [left; eexists; reflexivity|].
  right. exists cs, f.
  set (s1 := set_root (update cs (truncate_node 0 (s_clock s)) (s_root s)) (add_event (EvWrite filename) s)).
  assert (H0 : forall x, set_root (update cs (write_node 0 x (s_clock s1)) (s_root s1)) s1
                         = set_root (update cs (overwrite_node x (s_clock s)) (s_root s))
                                    (add_event (EvWrite filename) s)).
  { intros x. unfold s1; simpl. rewrite update_compose.
    erewrite update_ext by (intros m; apply truncate_then_write). reflexivity. }
  assert (H1 : s1 = set_root (update cs (overwrite_node "" (s_clock s)) (s_root s))
                             (add_event (EvWrite filename) s)).
  { unfold s1. erewrite update_ext by (intros m; apply truncate_is_overwrite). reflexivity. }
  fold s1.
  destruct (e_fault e "seek" filename) as [c|]; simpl.
  { exists ""; split; [reflexivity|split; [right; exists 0; symmetry; apply substring_0_0|split; [exact H1|discriminate]]]. }
  destruct (String.eqb r "") eqn:Er; simpl.
  { apply String.eqb_eq in Er; subst r.
    destruct (e_fault e "close" filename) as [c|]; simpl;
      (exists ""; split; [reflexivity|split; [left; reflexivity|split; [exact H1|intros; reflexivity]]]). }
  destruct (e_wfault e filename) as [[k c]|]; simpl.
  - exists (substring 0 k r).
    destruct (String.eqb (substring 0 k r) "") eqn:Ek; simpl;
      (split; [reflexivity|split; [right; exists k; reflexivity|split; [|discriminate]]]).
    + apply String.eqb_eq in Ek. rewrite Ek. exact H1.
    + apply H0.
  - destruct (e_fault e "close" filename) as [c|]; simpl;
      (exists r; split; [reflexivity|split; [left; reflexivity|split; [apply H0|intros; reflexivity]]]).
Qed.

(** C9. [OverwriteFileContents filename r] never creates, removes or
    changes the kind, mode or owner of any path, whatever its outcome.
    If the path resolves to nothing (or cannot be opened read-write) it
    returns the [open] error with the state unchanged.  When it succeeds,
    [filename] resolved (following symbolic links) to a regular file, and
    that file now holds exactly [r], with its mode and owner and the
    current time as modification time, while every node off its path is
    unchanged. *)
Theorem OverwriteFileContents_spec filename r e s :
  shape (s_root (snd (OverwriteFileContents filename r e s))) = shape (s_root s) /\
  (forall c, namei_from e s true filename = inl c ->
     OverwriteFileContents filename r e s = (inl (ErrPath "open" filename c), s)) /\
  (forall c, open_rdwr e s filename = inl c ->
     OverwriteFileContents filename r e s = (inl (ErrPath "open" filename c), s)) /\
  (forall s', OverwriteFileContents filename r e s = (inr tt, s') ->
     exists cs f,
       open_rdwr e s filename = inr (cs, NFile f) /\
       lookup cs (s_root s) = LFound (NFile f) /\
       lookup cs (s_root s') = LFound (NFile (mkFile r (f_mode f) (f_uid f) (s_clock s))) /\
       (forall cs', diverge cs' cs = true -> lookup cs' (s_root s') = lookup cs' (s_root s))).
Proof.
  assert (Herr : forall c, open_rdwr e s filename = inl c ->
            OverwriteFileContents filename r e s = (inl (ErrPath "open" filename c), s)).
  { intros c H. unfold OverwriteFileContents, bind, ask, get. rewrite H. reflexivity. }
  destruct (OverwriteFileContents_effect filename r e s)
    as [[c [Ho Hr]]|[[c Hr]|[cs [f [x [Ho [Hx [Hs Hok]]]]]]]].
  - split; [rewrite Hr; reflexivity|split; [|split; [exact Herr|intros s' H; congruence]]].
    intros c' Hn. apply Herr. unfold open_rdwr. rewrite Hn. reflexivity.
  - split; [rewrite Hr; reflexivity|split; [|split; [exact Herr|intros s' H; congruence]]].
    intros c' Hn. apply Herr. unfold open_rdwr. rewrite Hn. reflexivity.
  - split; [rewrite Hs; simpl; apply shape_update; apply shape_overwrite|].
    split; [intros c Hn; unfold open_rdwr in Ho; rewrite Hn in Ho; discriminate|].
    split; [exact Herr|].
    intros s' H. rewrite H in Hs, Hok. simpl in Hs, Hok. specialize (Hok eq_refl). subst x s'.
    pose proof (open_rdwr_lookup e s filename cs (NFile f) Ho) as Hl.
    exists cs, f. split; [exact Ho|split; [exact Hl|split]].
    + simpl. erewrite lookup_update_same by exact Hl. reflexivity.
    + intros cs' Hd. simpl. apply lookup_update_other; exact Hd.
Qed.

Lemma OverwriteFileContents_spec_witness :
  OverwriteFileContents "l.json" "{}" (demo_env (demo_engine TEOF)) link_state
    = (inr tt, snd (OverwriteFileContents "l.json" "{}" (demo_env (demo_engine TEOF)) link_state)) /\
  exists cs f,
    open_rdwr (demo_env (demo_engine TEOF)) link_state "l.json" = inr (cs, NFile f) /\
    lookup cs (s_root link_state) = LFound (NFile f) /\
    lookup cs (s_root (snd (OverwriteFileContents "l.json" "{}" (demo_env (demo_engine TEOF)) link_state)))
      = LFound (NFile (mkFile "{}" (f_mode f) (f_uid f) (s_clock link_state))) /\
    (forall cs', diverge cs' cs = true ->
       lookup cs' (s_root (snd (OverwriteFileContents "l.json" "{}" (demo_env (demo_engine TEOF)) link_state)))
       = lookup cs' (s_root link_state)).
Proof.
  split; [vm_compute; reflexivity|].
  apply (proj2 (proj2 (proj2 (OverwriteFileContents_spec "l.json" "{}" (demo_env (demo_engine TEOF)) link_state)))).
  vm_compute; reflexivity.
Defined.

(** ** The demultiplexer *)

Lemma app_trace_nil s : app_trace [] s = s.
Proof. destruct s; unfold app_trace; simpl; rewrite app_nil_r; reflexivity. Qed.

Lemma app_trace_app evs1 evs2 s : app_trace evs2 (app_trace evs1 s) = app_trace (evs1 ++ evs2) s.
Proof. unfold app_trace; simpl; rewrite app_assoc; reflexivity. Qed.


Lemma OverwriteFileContents_outputs filename r e s :
  s_stdout (snd (OverwriteFileContents filename r e s)) = s_stdout s /\
  s_found (snd (OverwriteFileContents filename r e s)) = s_found s.
Proof.
  destruct (OverwriteFileContents_effect filename r e s)
    as [[c [_ Hr]]|[[c Hr]|[cs [f [x [_ [_ [Hs _]]]]]]]];
    [rewrite Hr|rewrite Hr|rewrite Hs]; split; reflexivity.
Qed.

Lemma fmt_ofile_stdout dryrun name data e s :
  s_stdout (snd (fmt_ofile dryrun name data e s)) = s_stdout s ++ [(name ++ nl)%string].
Proof.
  unfold fmt_ofile, bind, out, modify. simpl.
  destruct dryrun; [reflexivity|]. simpl.
  apply (OverwriteFileContents_outputs name data e
           (set_found true (add_stdout (name ++ nl) s))).
Qed.

Lemma copy_out_run buf e s :
  copy_out buf e s =
    if String.eqb buf "" then (inr tt, s)
    else match e_stdout_err e (s_stdout s) buf with
         | Some err => (inl err, s)
         | None => (inr tt, add_stdout buf s)
         end.
Proof.
  unfold copy_out, bind, ask, get, out, modify, raise, ret.
  destruct (String.eqb buf ""); [reflexivity|]. destruct (e_stdout_err e (s_stdout s) buf); reflexivity.
Qed.



(** ** C6: when the diagnostic text reaches the primary output *)




(** ** C10: entry names without the output prefix *)

(** C10. For [Fmt]'s options, an entry of the output archive that is not
    a directory, not the stdout entry and not under [b/] goes to the
    output-file function with its name unchanged: the demultiplexer runs
    [fmt_ofile] on that very name, which prints the name on the primary
    output and, in a non-dry run, opens that same path for overwriting. *)
Theorem demux_unprefixed_entry o dryrun name data rest buf :
  o_ofilefunc o = Some (fmt_ofile dryrun) -> o_stdoutf o = "stdout" -> o_dirB o = "b" ->
  HasSuffix name "/" = false -> name <> "stdout" -> HasPrefix name "b/" = false ->
  TrimPrefix name (o_dirB o ++ "/") = name /\
  (forall e s, demux o (TEnt name data rest) buf e s = (fmt_ofile dryrun name data ;;; demux o rest buf) e s) /\
  (forall e s, fmt_ofile true name data e s = (inr tt, set_found true (add_stdout (name ++ nl) s))) /\
  (forall e s, fmt_ofile false name data e s
               = OverwriteFileContents name data e (set_found true (add_stdout (name ++ nl) s))).
Proof.
  intros Hf Hso HdB Hdir Hname Hpre.
  assert (Ht : TrimPrefix name (o_dirB o ++ "/") = name).
  { rewrite HdB. change (("b" ++ "/")%string) with "b/". unfold TrimPrefix. rewrite Hpre. reflexivity. }
  split; [exact Ht|split; [|split]].
  - intros e s. simpl. rewrite Hdir, Hso.
    destruct (String.eqb name "stdout") eqn:E; [apply String.eqb_eq in E; contradiction|].
    rewrite Hf, Ht. reflexivity.
  - intros e s. reflexivity.
  - intros e s. reflexivity.
Qed.

Lemma demux_unprefixed_entry_witness :
  HasSuffix "w/x.json" "/" = false /\ HasPrefix "w/x.json" "b/" = false /\
  (TrimPrefix "w/x.json" (o_dirB (fmt_options false) ++ "/") = "w/x.json" /\
   (forall e s, demux (fmt_options false) (TEnt "w/x.json" "{}" TEOF) "" e s
                = (fmt_ofile false "w/x.json" "{}" ;;; demux (fmt_options false) TEOF "") e s) /\
   (forall e s, fmt_ofile true "w/x.json" "{}" e s
                = (inr tt, set_found true (add_stdout ("w/x.json" ++ nl) s))) /\
   (forall e s, fmt_ofile false "w/x.json" "{}" e s
                = OverwriteFileContents "w/x.json" "{}" e (set_found true (add_stdout ("w/x.json" ++ nl) s)))).
Proof.
  split; [reflexivity|split; [reflexivity|]].
  apply (demux_unprefixed_entry (fmt_options false) false "w/x.json" "{}" TEOF "");
    try reflexivity; discriminate.
Defined.

(** ** Dry runs *)

Lemma bind_inv {A B} (m : M A) (k : A -> M B) e s r s' :
  bind m k e s = (r, s') ->
  (exists err, m e s = (inl err, s') /\ r = inl err) \/
  (exists a s1, m e s = (inr a, s1) /\ k a e s1 = (r, s')).
Proof.
  unfold bind. destruct (m e s) as [[err|a] s1].
  - intros H; inversion H; subst. left; exists err; split; reflexivity.
  - intros H. right; exists a, s1; split; [reflexivity|exact H].
Qed.

Lemma read_inputs_spec filenames e s :
  exists evs, (forall ev, In ev evs -> exists p, ev = EvRead p) /\
              snd (read_inputs filenames e s) = app_trace evs s.
Proof.
  revert s. induction filenames as [|fn rest IH]; intros s.
  - exists []; split; [intros ev []|]. simpl. symmetry; apply app_trace_nil.
  - simpl. unfold bind, ask, get. destruct (read_file e s fn) as [c|data].
    + exists []; split; [intros ev []|]. symmetry; apply app_trace_nil.
    + unfold modify.
      destruct (IH (add_event (EvRead fn) s)) as [evs [Hevs Hs]].
      exists (EvRead fn :: evs); split.
      * intros ev [<-|Hin]; [exists fn; reflexivity|apply Hevs; exact Hin].
      * destruct (read_inputs rest e (add_event (EvRead fn) s)) as [[err|more] s1]; simpl in *;
          rewrite Hs; unfold app_trace, add_event; simpl; rewrite <- app_assoc; reflexivity.
Qed.

Lemma apply_opts_app l1 l2 o :
  apply_opts (l1 ++ l2) o =
  match apply_opts l1 o with inl err => inl err | inr o' => apply_opts l2 o' end.
Proof.
  revert o. induction l1 as [|opt l1 IH]; intros o; [reflexivity|]. simpl.
  destruct (opt o); [reflexivity|apply IH].
Qed.

Lemma apply_opts_keeps l o :
  (forall opt, In opt l -> keeps_out opt) ->
  exists o', apply_opts l o = inr o' /\ o_ofilefunc o' = o_ofilefunc o /\ o_stdoutf o' = o_stdoutf o /\
             o_dockerfile o' = o_dockerfile o.
Proof.
  revert o. induction l as [|opt l IH]; intros o Hl; [exists o; auto|]. simpl.
  destruct (Hl opt (or_introl eq_refl) o) as [o1 [H1 [H2 [H3 H3']]]]. rewrite H1.
  destruct (IH o1) as [o2 [H4 [H5 [H6 H6']]]]; [intros opt' Hin; apply Hl; right; exact Hin|].
  exists o2. split; [exact H4|split; [congruence|split; congruence]].
Qed.

Lemma Fmt_options_apply exe dryrun complain inputs environ :
  exists o,
    apply_opts ([WithContext; WithStdout; WithStderr; WithExecutable exe;
                 WithDockerfile (dockerfile complain); WithOutputFileFunc (fmt_ofile dryrun)]
                ++ map (fun '(fn, data) => WithInputFile fn data) inputs
                ++ arg_opts environ) default_options = inr o /\
    o_ofilefunc o = Some (fmt_ofile dryrun) /\ o_stdoutf o = "stdout" /\
    o_dockerfile o = dockerfile complain.
Proof.
  rewrite apply_opts_app. simpl.
  edestruct apply_opts_keeps as [o [H1 [H2 [H3 H4]]]];
    [|exists o; split; [exact H1|split; [exact H2|split; [exact H3|exact H4]]]].
  intros opt Hin. apply in_app_or in Hin. destruct Hin as [Hin|Hin].
  - apply in_map_iff in Hin. destruct Hin as [[fn data] [<- _]].
    intros o'. eexists; split; [reflexivity|split; [reflexivity|split; reflexivity]].
  - unfold arg_opts in Hin. apply in_map_iff in Hin. destruct Hin as [kv [<- _]].
    intros o'. eexists; split; [reflexivity|split; [reflexivity|split; reflexivity]].
Qed.


(** An event of [evs], all of which are reads, that is not a read. *)
Ltac not_a_read Hevs Hin := destruct (Hevs _ Hin) as [? ?]; discriminate.




(** ** C1: directories outside [$PWD] *)

(** C1 (the program on one input). [/t] is not under [$PWD = /w]; named
    as a file, [/t/f.json] is refused with the not-under-[$PWD] error, but
    naming the directory [/t] makes [Fmt] succeed after reading
    [/t/f.json] and sending it to the engine as [a/t/f.json]. *)
Theorem Fmt_traversal_outside_pwd :
  HasPrefix (Abs "/w" "/t/f.json") "/w" = false /\
  fst (Fmt "/w" false ["/t/f.json"] (demo_env (demo_engine empty_output)) demo_state)
    = inl (ErrUnusable "/t/f.json" NotUnderPWD) /\
  fst (Fmt "/w" false ["/t"] (demo_env (demo_engine empty_output)) demo_state) = inr tt /\
  exists args archive,
    s_trace (snd (Fmt "/w" false ["/t"] (demo_env (demo_engine empty_output)) demo_state))
      = [EvRead "/t/f.json"; EvBuild args archive] /\
    map t_name archive = ["Dockerfile"; "a/t/f.json"] /\
    map t_data archive = [dockerfile false; "{ }"].
Proof.
  split; [reflexivity|split; [vm_compute; reflexivity|split; [vm_compute; reflexivity|]]].
  vm_compute. eexists _, _. split; [reflexivity|split; reflexivity].
Qed.

(** ** C5: names of the input archive *)

(** C5 (the program on one input). [x.json] and [./x.json] name the same
    file; [uniqueSorted] keeps both strings, [filepath.Join] cleans both
    to [a/x.json], and the input archive holds two entries of that name. *)
Theorem Fmt_duplicate_archive_names :
  exists args archive,
    s_trace (snd (Fmt "/w" false ["x.json"; "./x.json"] (demo_env (demo_engine empty_output)) demo_state))
      = [EvRead "./x.json"; EvRead "x.json"; EvBuild args archive] /\
    map t_name archive = ["Dockerfile"; "a/x.json"; "a/x.json"].
Proof. vm_compute. eexists _, _. split; reflexivity. Qed.

(** ** C8: hidden names in a traversal *)

(** C8 (the program on one input). The directory [.] (that is [/w], which
    holds the regular file [x.json]) is walked from an entry named [.],
    which the callback takes for a hidden directory: the whole walk is
    pruned and nothing is selected.  [Fmt] then treats [.] as a file and
    fails on it. *)
Theorem ensureRegular_dot_selects_nothing :
  lookup ["w"; "x.json"] demo_root = LFound (demo_file "{ }") /\
  ensureRegular "/w" "/w" true (demo_env (demo_engine empty_output)) demo_state
    = (inr ["/w/sub/y.json"; "/w/x.json"; "/w/x.xyz"], demo_state) /\
  ensureRegular "/w" "." true (demo_env (demo_engine empty_output)) demo_state
    = (inr [], demo_state) /\
  Fmt "/w" false ["."] (demo_env (demo_engine empty_output)) demo_state
    = (inl (ErrUnusable "." EISDIR), demo_state).
Proof. split; [reflexivity|split; [vm_compute; reflexivity|split; vm_compute; reflexivity]]. Qed.

(** ** C2: the fallback arm of the manifest *)

(** C2 (counterexample). An unhandled file ([x.xyz]) under the manifest
    of a run with only explicitly named files makes no failure: the loop
    ends with status 0 and the line [! x.xyz] in [/app/stdout]; under the
    manifest of a run that traversed a directory, the same file is skipped
    with no diagnostic at all.  And a run naming [x.xyz] explicitly does
    send the first manifest. *)
Lemma product_unhandled_not_fatal :
  product_loop (complaining true) identity_tool [("./x.xyz", "bla")] 0 [] ""
    = Some (0, [], ("! x.xyz" ++ nl)%string) /\
  product_loop (complaining false) identity_tool [("./x.xyz", "bla")] 0 [] ""
    = Some (0, [], "") /\
  exists args archive,
    s_trace (snd (Fmt "/w" false ["x.xyz"] (demo_env (demo_engine empty_output)) demo_state))
      = [EvRead "x.xyz"; EvBuild args archive] /\
    map t_data archive = [dockerfile true; "bla"].
Proof.
  split; [reflexivity|split; [reflexivity|]].
  vm_compute. eexists _, _. split; reflexivity.
Qed.

Lemma write_ifiles_ok dirA ifiles : exists ents, write_ifiles dirA ifiles = inr ents.
Proof.
  induction ifiles as [|[fn data] rest [ents IH]]; [exists []; reflexivity|].
  simpl. unfold tar_write at 1. rewrite Nat.eqb_refl, IH. eexists; reflexivity.
Qed.

(** C2. (1) Once the selection is done, [Fmt] builds with the manifest
    flag [complain] set exactly when no directory traversal produced a
    file; (2) the options it passes make [dockerfile complain] the
    manifest, sent as the first entry [Dockerfile] (mode 0200) of the
    input archive; (3) for a file no arm of the case statement handles,
    the fallback arm of the manifest with [complain] appends the line
    [! f] to [/app/stdout] with exit status 0, and the manifest without
    it skips the file with exit status 0 and no diagnostic; (4) over a
    whole loop, the two manifests end with the same exit status and the
    same formatted outputs, and they differ only in [/app/stdout]: left
    unchanged without [complain], extended with one line [! f] per
    unhandled file with it.  In neither case does an unhandled file fail
    the build. *)
Theorem Fmt_manifest_fallback :
  (forall pwd dryrun filenames e s exe fns moreFns s1,
     e_docker e = Some exe ->
     select_loop pwd dryrun (match filenames with [] => [pwd] | _ => filenames end) [] [] e s
       = (inr (fns, moreFns), s1) ->
     Fmt pwd dryrun filenames e s
       = Fmt_build exe dryrun (is_nil moreFns) (uniqueSorted (fns ++ moreFns)) e s1) /\
  (forall exe dryrun complain inputs environ,
     exists o ents,
       apply_opts ([WithContext; WithStdout; WithStderr; WithExecutable exe;
                    WithDockerfile (dockerfile complain); WithOutputFileFunc (fmt_ofile dryrun)]
                   ++ map (fun '(fn, data) => WithInputFile fn data) inputs
                   ++ arg_opts environ) default_options = inr o /\
       build_archive o
         = inr (mkEntry "Dockerfile" 128 (String.length (dockerfile complain)) (dockerfile complain) :: ents)) /\
  (forall tool path data stdout_file,
     case_dispatch (TrimPrefix path "./") = None ->
     product_body (complaining true) tool path data stdout_file
       = Some (0, None, (stdout_file ++ "! " ++ TrimPrefix path "./" ++ nl)%string) /\
     product_body (complaining false) tool path data stdout_file = Some (0, None, stdout_file)) /\
  (forall tool files st outs, exists st' outs', forall stdout_file,
     product_loop (complaining false) tool files st outs stdout_file
       = Some (st', outs', stdout_file) /\
     product_loop (complaining true) tool files st outs stdout_file
       = Some (st', outs', (stdout_file ++ unhandled_lines files)%string)).
Proof.
  split; [|split; [|split]].
  - intros pwd dryrun filenames e s exe fns moreFns s1 Hd Hsel.
    unfold Fmt, bind at 1, ask. rewrite Hd. cbv zeta. unfold bind at 1. rewrite Hsel. reflexivity.
  - intros exe dryrun complain inputs environ.
    destruct (Fmt_options_apply exe dryrun complain inputs environ) as [o [Happ [_ [_ Hdf]]]].
    destruct (write_ifiles_ok (o_dirA o) (o_ifiles o)) as [ents Hw].
    exists o, ents. split; [exact Happ|].
    unfold build_archive, tar_write. rewrite Nat.eqb_refl, Hw, Hdf. reflexivity.
  - intros tool path data so Hc. unfold product_body. rewrite Hc. unfold run_fallback.
    split.
    + assert (Hne : String.eqb (complaining true) "" = false) by reflexivity.
      rewrite Hne, String.eqb_refl. reflexivity.
    + reflexivity.
  - intros tool files. induction files as [|[path data] rest IH]; intros st outs.
    + exists st, outs. intros so. rewrite append_empty_r. split; reflexivity.
    + cbn [product_loop unhandled_lines]. unfold product_body.
      destruct (case_dispatch (TrimPrefix path "./")) as [h|].
      * destruct (tool h (TrimPrefix path "./") data) as [st0 outb].
        destruct (Nat.eqb st0 0); [destruct outb as [d'|]; [destruct (String.eqb d' data)|]|];
          [apply IH|apply IH|apply IH|apply IH].
      * destruct (IH 0 outs) as [st' [outs' H]]. exists st', outs'. intros so.
        assert (Hrf : forall c, run_fallback (complaining c) (TrimPrefix path "./") so
                  = Some (0, if c then (so ++ "! " ++ TrimPrefix path "./" ++ nl)%string else so))
          by (intros [|]; reflexivity).
        rewrite (Hrf false), (Hrf true).
        split; [apply H|]. rewrite (append_assoc_str so ("! " ++ TrimPrefix path "./" ++ nl)%string (unhandled_lines rest)). apply H.
Qed.

Lemma Fmt_manifest_fallback_witness :
  e_docker (demo_env (demo_engine empty_output)) = Some "/usr/bin/docker" /\
  select_loop "/w" false ["x.xyz"] [] [] (demo_env (demo_engine empty_output)) demo_state
    = (inr (["x.xyz"], []), demo_state) /\
  Fmt "/w" false ["x.xyz"] (demo_env (demo_engine empty_output)) demo_state
    = Fmt_build "/usr/bin/docker" false true ["x.xyz"] (demo_env (demo_engine empty_output)) demo_state /\
  case_dispatch "x.xyz" = None /\
  (product_body (complaining true) identity_tool "./x.xyz" "bla" ""
     = Some (0, None, ("" ++ "! " ++ TrimPrefix "./x.xyz" "./" ++ nl)%string) /\
   product_body (complaining false) identity_tool "./x.xyz" "bla" "" = Some (0, None, "")).
Proof.
  split; [reflexivity|split; [vm_compute; reflexivity|split; [|split; [reflexivity|]]]].
  - apply (proj1 Fmt_manifest_fallback "/w" false ["x.xyz"] (demo_env (demo_engine empty_output))
             demo_state "/usr/bin/docker" ["x.xyz"] [] demo_state); [reflexivity|vm_compute; reflexivity].
  - apply (proj1 (proj2 (proj2 Fmt_manifest_fallback))). reflexivity.
Defined.

(* ------------------------------------------------------------------ *)
(** * Further properties of the code *)

(** ** [uniqueSorted] *)

Lemma ascii_compare_lt_trans a b c :
  Ascii.compare a b = Lt -> Ascii.compare b c = Lt -> Ascii.compare a c = Lt.
Proof.
  unfold Ascii.compare. rewrite !N.compare_lt_iff. lia.
Qed.

Lemma ascii_compare_eq_lt a b c :
  Ascii.compare a b = Eq -> Ascii.compare b c = Lt -> Ascii.compare a c = Lt.
Proof. intros H1 H2. apply Ascii.compare_eq_iff in H1. subst. exact H2. Qed.

Lemma ascii_compare_lt_eq a b c :
  Ascii.compare a b = Lt -> Ascii.compare b c = Eq -> Ascii.compare a c = Lt.
Proof. intros H1 H2. apply Ascii.compare_eq_iff in H2. subst. exact H1. Qed.

Lemma string_compare_lt_trans x y z :
  String.compare x y = Lt -> String.compare y z = Lt -> String.compare x z = Lt.
Proof.
  revert y z. induction x as [|a x IH]; intros [|b y] [|c z]; simpl; try discriminate; auto.
  destruct (Ascii.compare a b) eqn:Hab; try discriminate;
  destruct (Ascii.compare b c) eqn:Hbc; try discriminate; intros H1 H2.
  - replace (Ascii.compare a c) with Eq; [eauto|].
    apply Ascii.compare_eq_iff in Hab; subst; symmetry; exact Hbc.
  - rewrite (ascii_compare_eq_lt a b c Hab Hbc). reflexivity.
  - rewrite (ascii_compare_lt_eq a b c Hab Hbc). reflexivity.
  - rewrite (ascii_compare_lt_trans a b c Hab Hbc). reflexivity.
Qed.

Lemma string_compare_refl x : String.compare x x = Eq.
Proof.
  induction x as [|a x IH]; simpl; [reflexivity|].
  unfold Ascii.compare. rewrite N.compare_refl. exact IH.
Qed.

Lemma insert_uniq_in x l y : In y (insert_uniq x l) <-> x = y \/ In y l.
Proof.
  induction l as [|z l IH]; simpl; [tauto|].
  destruct (String.compare x z) eqn:Hc; simpl.
  - apply String.compare_eq_iff in Hc. subst. tauto.
  - tauto.
  - rewrite IH. tauto.
Qed.

Lemma insert_uniq_sorted x l :
  Sorted (fun a b => String.compare a b = Lt) l ->
  Sorted (fun a b => String.compare a b = Lt) (insert_uniq x l).
Proof.
  induction l as [|z l IH]; intros Hs; simpl.
  - constructor; constructor.
  - destruct (String.compare x z) eqn:Hc.
    + exact Hs.
    + constructor; [exact Hs|constructor; exact Hc].
    + apply Sorted_inv in Hs. destruct Hs as [Hs Hhd].
      constructor; [apply IH; exact Hs|].
      destruct l as [|w l]; simpl.
      * constructor. rewrite String.compare_antisym, Hc. reflexivity.
      * apply HdRel_inv in Hhd.
        destruct (String.compare x w); constructor; auto.
        rewrite String.compare_antisym, Hc. reflexivity.
Qed.

Lemma uniqueSorted_fold xs acc :
  Sorted (fun a b => String.compare a b = Lt) acc ->
  Sorted (fun a b => String.compare a b = Lt) (fold_left (fun acc x => insert_uniq x acc) xs acc) /\
  (forall y, In y (fold_left (fun acc x => insert_uniq x acc) xs acc) <-> In y acc \/ In y xs).
Proof.
  revert acc. induction xs as [|x xs IH]; intros acc Hs; simpl.
  - split; [exact Hs|tauto].
  - destruct (IH (insert_uniq x acc) (insert_uniq_sorted x acc Hs)) as [H1 H2].
    split; [exact H1|]. intros y. rewrite H2, insert_uniq_in. tauto.
Qed.

(** X1. [uniqueSorted xs] holds exactly the strings of [xs], each once,
    in strictly increasing byte order. *)
Theorem uniqueSorted_spec xs :
  StronglySorted (fun a b => String.compare a b = Lt) (uniqueSorted xs) /\
  NoDup (uniqueSorted xs) /\
  (forall y, In y (uniqueSorted xs) <-> In y xs).
Proof.
  destruct (uniqueSorted_fold xs [] (Sorted_nil _)) as [Hs Hin].
  fold (uniqueSorted xs) in Hs, Hin.
  assert (Hss : StronglySorted (fun a b => String.compare a b = Lt) (uniqueSorted xs)).
  { apply Sorted_StronglySorted; [|exact Hs].
    intros a b c; apply string_compare_lt_trans. }
  split; [exact Hss|split].
  - clear Hs Hin. induction Hss as [|a l Hl IH Hall]; constructor; [|exact IH].
    intros Ha. rewrite Forall_forall in Hall. specialize (Hall a Ha).
    rewrite string_compare_refl in Hall. discriminate.
  - intros y. rewrite Hin. simpl. tauto.
Qed.

(** ** The input archive *)

Lemma write_ifiles_eq dirA ifiles :
  write_ifiles dirA ifiles
  = inr (map (fun '(fn, data) => mkEntry (Join dirA fn) 384 (String.length data) data) ifiles).
Proof.
  induction ifiles as [|[fn data] rest IH]; [reflexivity|].
  simpl. unfold tar_write at 1. rewrite Nat.eqb_refl, IH. reflexivity.
Qed.

Lemma build_archive_eq o :
  build_archive o
  = inr (mkEntry "Dockerfile" 128 (String.length (o_dockerfile o)) (o_dockerfile o)
         :: map (fun '(fn, data) => mkEntry (Join (o_dirA o) fn) 384 (String.length data) data)
                (o_ifiles o)).
Proof.
  unfold build_archive, tar_write at 1. rewrite Nat.eqb_refl, write_ifiles_eq. reflexivity.
Qed.

(** ** What the engine is given *)

Definition only_writes (evs : list event) : Prop := forall ev, In ev evs -> exists p, ev = EvWrite p.

Lemma only_writes_nil : only_writes [].
Proof. intros ev []. Qed.

Lemma only_writes_app l1 l2 : only_writes l1 -> only_writes l2 -> only_writes (l1 ++ l2).
Proof. intros H1 H2 ev Hin. apply in_app_or in Hin. destruct Hin; auto. Qed.

Lemma OverwriteFileContents_trace filename r e s :
  exists evs, only_writes evs /\
    s_trace (snd (OverwriteFileContents filename r e s)) = s_trace s ++ evs.
Proof.
  destruct (OverwriteFileContents_effect filename r e s)
    as [[c [_ Hr]]|[[c Hr]|[cs [f [x [_ [_ [Hs _]]]]]]]].
  - exists []. split; [apply only_writes_nil|]. rewrite Hr, app_nil_r. reflexivity.
  - exists []. split; [apply only_writes_nil|]. rewrite Hr, app_nil_r. reflexivity.
  - exists [EvWrite filename]. split; [intros ev [<-|[]]; eexists; reflexivity|].
    rewrite Hs. reflexivity.
Qed.

Lemma fmt_ofile_trace dryrun name data e s :
  exists evs, only_writes evs /\ s_trace (snd (fmt_ofile dryrun name data e s)) = s_trace s ++ evs.
Proof.
  unfold fmt_ofile, bind, out, modify. simpl. destruct dryrun; simpl.
  - exists []. split; [apply only_writes_nil|]. rewrite app_nil_r. reflexivity.
  - destruct (OverwriteFileContents_trace name data e (set_found true (add_stdout (name ++ nl) s)))
      as [evs [W T]].
    exists evs. split; [exact W|exact T].
Qed.

Lemma demux_trace o dryrun tr buf e s :
  o_ofilefunc o = Some (fmt_ofile dryrun) ->
  exists evs, only_writes evs /\ s_trace (snd (demux o tr buf e s)) = s_trace s ++ evs.
Proof.
  intros Hf. revert buf s. induction tr as [|msg|name data rest IH]; intros buf s; simpl.
  - exists []. split; [apply only_writes_nil|]. rewrite app_nil_r, copy_out_run.
    destruct (String.eqb buf ""); [|destruct (e_stdout_err e (s_stdout s) buf)]; reflexivity.
  - exists []. split; [apply only_writes_nil|]. rewrite app_nil_r. reflexivity.
  - destruct (HasSuffix name "/"); [apply IH|].
    destruct (String.eqb name (o_stdoutf o)); [apply IH|].
    rewrite Hf. unfold bind.
    destruct (fmt_ofile_trace dryrun (TrimPrefix name (o_dirB o ++ "/")) data e s) as [evs1 [W1 T1]].
    destruct (fmt_ofile dryrun (TrimPrefix name (o_dirB o ++ "/")) data e s) as [[err|[]] s1];
      simpl in T1.
    + exists evs1. split; [exact W1|exact T1].
    + destruct (IH buf s1) as [evs2 [W2 T2]]. exists (evs1 ++ evs2).
      split; [apply only_writes_app; assumption|]. rewrite T2, T1, app_assoc. reflexivity.
Qed.

Lemma New_trace opts o dryrun e s r s' :
  apply_opts opts default_options = inr o ->
  o_ofilefunc o = Some (fmt_ofile dryrun) ->
  New opts e s = (r, s') ->
  s_trace s' = s_trace s \/
  exists archive evs,
    build_archive o = inr archive /\ only_writes evs /\
    s_trace s' = s_trace s ++ EvBuild (o_args o ++ ["-"]) archive :: evs.
Proof.
  intros Happ Hf H. unfold New in H. rewrite Happ in H.
  apply bind_inv in H. destruct H as [[err [Hask _]]|[e0 [s0 [Hask H]]]]; [discriminate|].
  unfold ask in Hask. inversion Hask; subst e0 s0; clear Hask.
  apply bind_inv in H. destruct H as [[err [Hx Hr]]|[x [s1 [Hx H]]]].
  - left. destruct (String.eqb (o_exe o) ""); [destruct (e_docker e)|]; inversion Hx; reflexivity.
  - assert (s1 = s).
    { destruct (String.eqb (o_exe o) ""); [destruct (e_docker e)|]; inversion Hx; reflexivity. }
    subst s1.
    destruct (Nat.eqb (String.length (o_dockerfile o)) 0).
    { inversion H; subst. left; reflexivity. }
    destruct (build_archive o) as [err|archive] eqn:Hb.
    { inversion H; subst. left; reflexivity. }
    right. exists archive. cbv zeta in H. apply bind_inv in H.
    destruct H as [[err [Hm _]]|[u [s4 [Hm H]]]]; [discriminate|].
    unfold modify in Hm. inversion Hm; subst s4; clear Hm.
    destruct (e_engine e (o_args o ++ ["-"]) archive) as [tar errout|re errout].
    + apply bind_inv in H. destruct H as [[err [Hm _]]|[u' [s5 [Hm H]]]]; [discriminate|].
      unfold modify in Hm. inversion Hm; subst s5; clear Hm.
      destruct (demux_trace o dryrun tar "" e
                  (add_stderr errout (add_event (EvBuild (o_args o ++ ["-"]) archive) s)) Hf)
        as [evs [W T]].
      rewrite H in T. simpl in T. exists evs. split; [reflexivity|split; [exact W|]].
      rewrite T, <- app_assoc. reflexivity.
    + apply bind_inv in H. destruct H as [[err [Hm _]]|[u' [s5 [Hm H]]]]; [discriminate|].
      unfold modify in Hm. inversion Hm; subst s5; clear Hm.
      exists []. split; [reflexivity|split; [apply only_writes_nil|]].
      assert (s' = add_stderr errout (add_event (EvBuild (o_args o ++ ["-"]) archive) s)).
      { destruct (String.eqb (run_error_string re) "exit status 1"); inversion H; reflexivity. }
      subst s'. reflexivity.
Qed.

Lemma namei_from_root e s1 s2 b p :
  s_root s1 = s_root s2 -> namei_from e s1 b p = namei_from e s2 b p.
Proof. intros H. unfold namei_from. rewrite H. reflexivity. Qed.

Lemma read_file_root e s1 s2 p : s_root s1 = s_root s2 -> read_file e s1 p = read_file e s2 p.
Proof. intros H. unfold read_file. rewrite (namei_from_root e s1 s2 true p H). reflexivity. Qed.

Lemma read_inputs_ok filenames e s inputs s' :
  read_inputs filenames e s = (inr inputs, s') ->
  map fst inputs = filenames /\
  (forall fn data, In (fn, data) inputs -> read_file e s fn = inr data) /\
  s' = app_trace (map EvRead filenames) s.
Proof.
  revert s inputs. induction filenames as [|fn rest IH]; intros s inputs H; simpl in H.
  - inversion H; subst. split; [reflexivity|split; [intros ? ? []|]]. symmetry; apply app_trace_nil.
  - unfold bind, ask, get in H. destruct (read_file e s fn) as [c|data] eqn:Hr; [discriminate|].
    unfold modify in H.
    destruct (read_inputs rest e (add_event (EvRead fn) s)) as [[err|more] s1] eqn:Hrest;
      [discriminate|].
    inversion H; subst inputs s1; clear H.
    destruct (IH _ _ Hrest) as [H1 [H2 H3]].
    split; [simpl; rewrite H1; reflexivity|split].
    + intros fn' data' [Heq|Hin].
      * inversion Heq; subst. exact Hr.
      * rewrite <- (H2 fn' data' Hin). apply read_file_root. reflexivity.
    + rewrite H3. unfold app_trace, add_event. simpl. rewrite <- app_assoc. reflexivity.
Qed.

Lemma apply_opts_input_files inputs o :
  apply_opts (map (fun '(fn, data) => WithInputFile fn data) inputs) o
  = inr (mkOptions (o_exe o) (o_args o) (o_dockerfile o) (o_stdoutf o) (o_dirA o) (o_dirB o)
           (o_ifiles o ++ inputs) (o_ofilefunc o)).
Proof.
  revert o. induction inputs as [|[fn data] rest IH]; intros o; simpl.
  - rewrite app_nil_r. destruct o; reflexivity.
  - rewrite IH. simpl. rewrite <- app_assoc. reflexivity.
Qed.

Lemma apply_opts_build_args environ o :
  apply_opts (arg_opts environ) o
  = inr (mkOptions (o_exe o)
           (o_args o ++ map (fun kv => ("--build-arg=" ++ TrimPrefix kv "ARG_")%string)
                            (filter (fun kv => HasPrefix kv "ARG_") environ))
           (o_dockerfile o) (o_stdoutf o) (o_dirA o) (o_dirB o) (o_ifiles o) (o_ofilefunc o)).
Proof.
  unfold arg_opts. revert o.
  induction environ as [|kv rest IH]; intros o; simpl.
  - rewrite app_nil_r. destruct o; reflexivity.
  - destruct (HasPrefix kv "ARG_"); simpl; [|apply IH].
    rewrite IH. simpl. rewrite <- app_assoc. reflexivity.
Qed.

Lemma Fmt_options_exact exe dryrun complain inputs environ :
  apply_opts ([WithContext; WithStdout; WithStderr; WithExecutable exe;
               WithDockerfile (dockerfile complain); WithOutputFileFunc (fmt_ofile dryrun)]
              ++ map (fun '(fn, data) => WithInputFile fn data) inputs
              ++ arg_opts environ) default_options
  = inr (mkOptions exe
           (["build"; "--output=-"] ++ map (fun kv => ("--build-arg=" ++ TrimPrefix kv "ARG_")%string)
                                         (filter (fun kv => HasPrefix kv "ARG_") environ))
           (dockerfile complain) "stdout" "a" "b" inputs (Some (fmt_ofile dryrun))).
Proof.
  assert (H6 : apply_opts [WithContext; WithStdout; WithStderr; WithExecutable exe;
                           WithDockerfile (dockerfile complain); WithOutputFileFunc (fmt_ofile dryrun)]
                          default_options
                = inr (mkOptions exe ["build"; "--output=-"] (dockerfile complain) "stdout" "a" "b" []
                                 (Some (fmt_ofile dryrun)))) by reflexivity.
  rewrite apply_opts_app, H6, apply_opts_app, apply_opts_input_files, apply_opts_build_args.
  reflexivity.
Qed.

(** X3. When a run of [Fmt] starts the engine, the engine is given the
    arguments [build --output=-], one [--build-arg=] for each [ARG_]
    variable of the environment (in order, prefix removed) and [-]; and
    an input archive made of the manifest [dockerfile complain] (with
    [complain] set when no directory traversal selected a file) followed
    by the selected files in [uniqueSorted] order, each under [a/] with
    the contents it had when the run started. *)
Theorem Fmt_engine_input pwd dryrun filenames e s r s' args archive :
  Fmt pwd dryrun filenames e s = (r, s') ->
  ~ In (EvBuild args archive) (s_trace s) ->
  In (EvBuild args archive) (s_trace s') ->
  args = ["build"; "--output=-"]
         ++ map (fun kv => ("--build-arg=" ++ TrimPrefix kv "ARG_")%string)
                (filter (fun kv => HasPrefix kv "ARG_") (e_environ e))
         ++ ["-"] /\
  exists fns moreFns inputs,
    select_loop pwd dryrun (match filenames with [] => [pwd] | _ => filenames end) [] [] e s
      = (inr (fns, moreFns), s) /\
    map fst inputs = uniqueSorted (fns ++ moreFns) /\
    (forall fn data, In (fn, data) inputs -> read_file e s fn = inr data) /\
    archive = mkEntry "Dockerfile" 128 (String.length (dockerfile (is_nil moreFns)))
                      (dockerfile (is_nil moreFns))
              :: map (fun '(fn, data) => mkEntry (Join "a" fn) 384 (String.length data) data) inputs.
Proof.
  intros H Hnot Hin. unfold Fmt in H.
  apply bind_inv in H. destruct H as [[err [Hask _]]|[e0 [s0 [Hask H]]]]; [discriminate|].
  unfold ask in Hask. inversion Hask; subst e0 s0; clear Hask.
  destruct (e_docker e) as [exe|] eqn:Hd; [|inversion H; subst; contradiction].
  cbv zeta in H. apply bind_inv in H.
  destruct (select_loop_ro pwd dryrun (match filenames with [] => [pwd] | _ => filenames end) [] [] e s)
    as [Hs1 _].
  destruct H as [[err [Hsel Hr]]|[[fns more] [s1 [Hsel H]]]].
  { rewrite Hsel in Hs1; simpl in Hs1; subst s'. contradiction. }
  rewrite Hsel in Hs1; simpl in Hs1; subst s1.
  unfold Fmt_build in H. apply bind_inv in H.
  destruct H as [[err [Hm _]]|[u [s2 [Hm H]]]]; [discriminate|].
  unfold modify in Hm. inversion Hm; subst s2; clear Hm.
  cbv zeta in H. apply bind_inv in H.
  destruct (read_inputs_spec (uniqueSorted (fns ++ more)) e (set_found false s)) as [evs [Hevs Hri]].
  destruct H as [[err [Hrd Hr]]|[inputs [s3 [Hrd H]]]].
  { rewrite Hrd in Hri; simpl in Hri; subst s'. simpl in Hin.
    apply in_app_or in Hin. destruct Hin as [Hin|Hin]; [contradiction|not_a_read Hevs Hin]. }
  destruct (read_inputs_ok _ _ _ _ _ Hrd) as [Hfst [Hdata Hs3]].
  subst s3.
  apply bind_inv in H. destruct H as [[err [Hask _]]|[e0 [s0 [Hask H]]]]; [discriminate|].
  unfold ask in Hask. inversion Hask; subst e0 s0; clear Hask.
  pose proof (Fmt_options_exact exe dryrun (is_nil more) inputs (e_environ e)) as Happ.
  assert (Hnew : exists r4 s4, New
      ([WithContext; WithStdout; WithStderr; WithExecutable exe;
        WithDockerfile (dockerfile (is_nil more)); WithOutputFileFunc (fmt_ofile dryrun)]
       ++ map (fun '(fn, data) => WithInputFile fn data) inputs ++ arg_opts (e_environ e))
      e (app_trace (map EvRead (uniqueSorted (fns ++ more))) (set_found false s)) = (r4, s4) /\
      (s_trace s' = s_trace s4)).
  { apply bind_inv in H. destruct H as [[err [Hn Hr]]|[u4 [s4 [Hn H]]]].
    - eexists _, _; split; [exact Hn|reflexivity].
    - eexists _, _; split; [exact Hn|].
      unfold bind, get in H. destruct (dryrun && s_found s4)%bool; inversion H; reflexivity. }
  destruct Hnew as [r4 [s4 [Hn Hts]]].
  destruct (New_trace _ _ dryrun _ _ _ _ Happ eq_refl Hn) as [Ht|[archive' [evs' [Hb [Hw Ht]]]]];
    rewrite Ht in Hts; simpl in Hts; rewrite Hts in Hin.
  - apply in_app_or in Hin. destruct Hin as [Hin|Hin]; [contradiction|].
    apply in_map_iff in Hin. destruct Hin as [? [? _]]. discriminate.
  - apply in_app_or in Hin. destruct Hin as [Hin|[Hin|Hin]].
    + apply in_app_or in Hin. destruct Hin as [Hin|Hin]; [contradiction|].
      apply in_map_iff in Hin. destruct Hin as [? [? _]]. discriminate.
    + inversion Hin; subst args archive'. simpl.
      rewrite build_archive_eq in Hb. simpl in Hb. inversion Hb; subst archive.
      split; [reflexivity|].
      exists fns, more, inputs. split; [exact Hsel|split; [exact Hfst|split]].
      * intros fn data Hfd. rewrite <- (Hdata fn data Hfd). apply read_file_root. reflexivity.
      * reflexivity.
    + destruct (Hw _ Hin) as [? ?]. discriminate.
Qed.

Lemma Fmt_engine_input_witness :
  ["build"; "--output=-"; "--build-arg=X=1"; "-"] = ["build"; "--output=-"]
    ++ map (fun kv => ("--build-arg=" ++ TrimPrefix kv "ARG_")%string)
           (filter (fun kv => HasPrefix kv "ARG_") (e_environ arg_env))
    ++ ["-"] /\
  exists fns moreFns inputs,
    select_loop "/w" false ["/w"] [] [] arg_env demo_state = (inr (fns, moreFns), demo_state) /\
    map fst inputs = uniqueSorted (fns ++ moreFns) /\
    (forall fn data, In (fn, data) inputs -> read_file arg_env demo_state fn = inr data) /\
    [mkEntry "Dockerfile" 128 (String.length (dockerfile false)) (dockerfile false);
     mkEntry "a/w/sub/y.json" 384 3 "{ }"; mkEntry "a/w/x.json" 384 3 "{ }";
     mkEntry "a/w/x.xyz" 384 3 "bla"]
    = mkEntry "Dockerfile" 128 (String.length (dockerfile (is_nil moreFns))) (dockerfile (is_nil moreFns))
      :: map (fun '(fn, data) => mkEntry (Join "a" fn) 384 (String.length data) data) inputs.
Proof.
  assert (Ht : s_trace (snd (Fmt "/w" false [] arg_env demo_state))
               = [EvRead "/w/sub/y.json"; EvRead "/w/x.json"; EvRead "/w/x.xyz";
                  EvBuild ["build"; "--output=-"; "--build-arg=X=1"; "-"]
                    [mkEntry "Dockerfile" 128 (String.length (dockerfile false)) (dockerfile false);
                     mkEntry "a/w/sub/y.json" 384 3 "{ }"; mkEntry "a/w/x.json" 384 3 "{ }";
                     mkEntry "a/w/x.xyz" 384 3 "bla"]]) by (vm_compute; reflexivity).
  apply (Fmt_engine_input "/w" false [] arg_env demo_state
           (fst (Fmt "/w" false [] arg_env demo_state)) (snd (Fmt "/w" false [] arg_env demo_state))).
  - destruct (Fmt "/w" false [] arg_env demo_state); reflexivity.
  - simpl. intros [].
  - rewrite Ht. right; right; right; left; reflexivity.
Defined.

(** ** What the selection keeps *)

Lemma walk_node_inv {A} (P : error -> Prop) (cb : string -> string -> node -> A -> M (walk_ctl * A))
  (Q : A -> Prop) e s :
  (forall path name n acc, ro P (cb path name n acc)) ->
  (forall path name n acc ctl acc', Q acc -> fst (cb path name n acc e s) = inr (ctl, acc') -> Q acc') ->
  forall fuel n path name acc ctl acc',
    Q acc -> fst (walk_node cb fuel path name n acc e s) = inr (ctl, acc') -> Q acc'.
Proof.
  intros Hro Hcb fuel. induction fuel as [|fuel IH]; intros n path name acc ctl acc' HQ H.
  { simpl in H. inversion H; subst; exact HQ. }
  remember (walk_node cb (S fuel) path name n acc e s) as res eqn:E.
  destruct res as [r s']; simpl in H; subst r. symmetry in E. cbn [walk_node] in E.
  apply bind_inv in E. destruct E as [[err [_ Hr]]|[[r acc1] [s1 [E1 E]]]]; [discriminate|].
  assert (Hs1 : s1 = s) by (pose proof (proj1 (Hro path name n acc e s)) as Hs; rewrite E1 in Hs; exact Hs).
  subst s1.
  assert (HQ1 : Q acc1) by (apply (Hcb path name n acc r acc1 HQ); rewrite E1; reflexivity).
  destruct r; [|destruct (is_dir n); inversion E; subst; exact HQ1].
  destruct (negb (is_dir n)); [inversion E; subst; exact HQ1|].
  apply bind_inv in E. destruct E as [[err [Hask _]]|[e0 [s0 [Hask E]]]]; [discriminate|].
  inversion Hask; subst e0 s0; clear Hask.
  apply bind_inv in E. destruct E as [[err [Hget _]]|[s0 [s2 [Hget E]]]]; [discriminate|].
  inversion Hget; subst s0 s2; clear Hget.
  destruct (read_dir e s path) as [c|kids].
  - apply bind_inv in E. destruct E as [[err [_ Hr]]|[[r2 acc2] [s2 [E2 E]]]]; [discriminate|].
    inversion E; subst. eapply (Hcb path name n acc1 r2); [exact HQ1|rewrite E2; reflexivity].
  - clear E1. revert acc1 HQ1 E. induction kids as [|[nm k] ks IHks]; intros acc1 HQ1 E.
    + inversion E; subst; exact HQ1.
    + apply bind_inv in E. destruct E as [[err [_ Hr]]|[[r1 acc3] [s3 [E3 E]]]]; [discriminate|].
      assert (Hs3 : s3 = s).
      { pose proof (proj1 (walk_node_ro P cb Hro fuel k (Join path nm) nm acc1 e s)) as Hs.
        rewrite E3 in Hs. exact Hs. }
      subst s3.
      assert (HQ3 : Q acc3) by (apply (IH k (Join path nm) nm acc1 r1 acc3 HQ1); rewrite E3; reflexivity).
      destruct r1; [exact (IHks acc3 HQ3 E)|inversion E; subst; exact HQ3].
Qed.

Lemma walk_node_total {A} (cb : string -> string -> node -> A -> M (walk_ctl * A)) e s :
  (forall path name n acc, exists ctl acc', cb path name n acc e s = (inr (ctl, acc'), s)) ->
  forall fuel n path name acc, exists ctl acc', walk_node cb fuel path name n acc e s = (inr (ctl, acc'), s).
Proof.
  intros Hcb fuel. induction fuel as [|fuel IH]; intros n path name acc; [eexists _, _; reflexivity|].
  cbn [walk_node]. unfold bind at 1. destruct (Hcb path name n acc) as [r [acc1 E]]. rewrite E.
  destruct r; [|destruct (is_dir n); eexists _, _; reflexivity].
  destruct (negb (is_dir n)); [eexists _, _; reflexivity|].
  unfold bind at 1 2, ask, get.
  destruct (read_dir e s path) as [c|kids].
  - unfold bind. destruct (Hcb path name n acc1) as [r2 [acc2 E2]]. rewrite E2. eexists _, _; reflexivity.
  - clear E. revert acc1. induction kids as [|[nm k] ks IHks]; intros acc1; [eexists _, _; reflexivity|].
    unfold bind at 1.
    destruct (IH k (Join path nm) nm acc1) as [r1 [acc3 E3]]. rewrite E3.
    destruct r1; [apply IHks|eexists _, _; reflexivity].
Qed.

Definition opens_rdwr (e : env) (s : state) (acc : list string) : Prop :=
  forall p, In p acc -> exists f, open_rdwr e s p = inr f.

Lemma select_cb_writable path name d acc ctl acc' e s :
  opens_rdwr e s acc -> fst (select_cb false path name d acc e s) = inr (ctl, acc') ->
  opens_rdwr e s acc'.
Proof.
  intros HQ. unfold select_cb.
  assert (Hw : fst (((if negb false then ensureWritable path else ret tt) ;;;
                     ret (WalkContinue, acc ++ [path])) e s) = inr (ctl, acc') -> opens_rdwr e s acc').
  { simpl. unfold ensureWritable, bind, ask, get.
    destruct (open_rdwr e s path) as [c|f] eqn:Ho; simpl; [discriminate|].
    destruct (e_fault e "close" path); simpl; [discriminate|].
    intros H; inversion H; subst. intros p Hp. apply in_app_or in Hp. destruct Hp as [Hp|[<-|[]]].
    - apply HQ; exact Hp.
    - exists f; exact Ho. }
  destruct name as [|c name'].
  - destruct (negb (is_regular d)); [simpl; intros H; inversion H; subst; exact HQ|exact Hw].
  - destruct (Ascii.eqb c "."%char); [destruct (is_dir d); simpl; intros H; inversion H; subst; exact HQ|].
    destruct (negb (is_regular d)); [simpl; intros H; inversion H; subst; exact HQ|exact Hw].
Qed.

Lemma ensureRegular_writable pwd fn e s l :
  fst (ensureRegular pwd fn false e s) = inr l -> opens_rdwr e s l.
Proof.
  unfold ensureRegular, bind, ask, get. destruct (lstat e s fn) as [c|[f|kids|sp]] eqn:Hl; simpl;
    try discriminate.
  - intros H; inversion H; subst. intros p [].
  - unfold WalkDir, bind, ask, get. rewrite Hl.
    destruct (walk_node (select_cb false) (S (S (height (s_root s)))) fn (basename fn) (NDir kids) [] e s)
      as [[err|[r acc]] s1] eqn:E; simpl; [discriminate|].
    intros H; inversion H; subst.
    apply (walk_node_inv usability (select_cb false) (opens_rdwr e s) e s (select_cb_ro false)
             (fun path name n acc ctl acc' HQ H => select_cb_writable path name n acc ctl acc' e s HQ H)
             (S (S (height (s_root s)))) (NDir kids) fn (basename fn) [] r l);
      [intros p []|rewrite E; reflexivity].
Qed.

Lemma select_loop_writable pwd filenames fns moreFns e s fns' moreFns' s' :
  opens_rdwr e s (fns ++ moreFns) ->
  select_loop pwd false filenames fns moreFns e s = (inr (fns', moreFns'), s') ->
  opens_rdwr e s (fns' ++ moreFns').
Proof.
  revert fns moreFns. induction filenames as [|fn rest IH]; intros fns moreFns HQ H.
  - simpl in H. inversion H; subst. exact HQ.
  - cbn [select_loop] in H. apply bind_inv in H.
    destruct (ensureRegular_spec pwd fn false e s) as [Hs1 _].
    destruct H as [[err [_ Hr]]|[l [s1 [Hl H]]]]; [discriminate|].
    rewrite Hl in Hs1. simpl in Hs1. subst s1.
    assert (Hlw : opens_rdwr e s l) by (apply (ensureRegular_writable pwd fn); rewrite Hl; reflexivity).
    destruct l as [|x l'].
    + apply bind_inv in H. destruct H as [[err [_ Hr]]|[u [s2 [Hu H]]]]; [discriminate|].
      assert (Hne : fn <> "").
      { intros ->. unfold ensureRegular, bind, ask, get, lstat, namei_from in Hl. simpl in Hl. discriminate. }
      destruct (ensureUnder_ro pwd fn Hne e s) as [Hs2 _].
      rewrite Hu in Hs2. simpl in Hs2. subst s2.
      apply bind_inv in H. destruct H as [[err [_ Hr]]|[u' [s3 [Hw H]]]]; [discriminate|].
      simpl in Hw. unfold ensureWritable, bind, ask, get in Hw.
      destruct (open_rdwr e s fn) as [c|f] eqn:Ho; [inversion Hw|].
      destruct (e_fault e "close" fn); inversion Hw; subst s3.
      apply (IH (fns ++ [fn]) moreFns); [|exact H].
      intros p Hp. rewrite <- app_assoc in Hp. apply in_app_or in Hp.
      destruct Hp as [Hp|[<-|Hp]]; [apply HQ; apply in_or_app; left; exact Hp|exists f; exact Ho|].
      apply HQ; apply in_or_app; right; exact Hp.
    + apply (IH fns (moreFns ++ x :: l')); [|exact H].
      intros p Hp. rewrite app_assoc in Hp. apply in_app_or in Hp.
      destruct Hp as [Hp|Hp]; [apply HQ; exact Hp|apply Hlw; exact Hp].
Qed.

(** X4. In a run that is not a dry run, a successful selection keeps only
    paths that open read-write: each resolves, following symbolic links
    as [os.OpenFile] does, to a regular file or a device that the process
    can both read and write.  This holds for the names given explicitly
    and for the files a directory traversal collects. *)
Theorem select_nondry_opens_rdwr pwd filenames e s fns moreFns s' :
  select_loop pwd false filenames [] [] e s = (inr (fns, moreFns), s') ->
  forall p, In p (fns ++ moreFns) ->
  exists cs f, (open_rdwr e s p = inr (cs, NFile f) \/ open_rdwr e s p = inr (cs, NSpecial (SDevice f))) /\
               can_read e f = true /\ can_write e f = true.
Proof.
  intros H p Hp.
  destruct (select_loop_writable pwd filenames [] [] e s fns moreFns s' (fun p Hp => match Hp with end) H p Hp)
    as [[cs n] Hf].
  destruct (open_rdwr_cases e s p cs n Hf) as [f [[->| ->] [Hr Hw]]];
    exists cs, f; (split; [|split; assumption]); [left|right]; exact Hf.
Qed.

Lemma select_nondry_opens_rdwr_witness :
  select_loop "/w" false ["/w"; "x.json"] [] [] (demo_env (demo_engine empty_output)) demo_state
    = (inr (["x.json"], ["/w/sub/y.json"; "/w/x.json"; "/w/x.xyz"]), demo_state) /\
  exists cs f,
    (open_rdwr (demo_env (demo_engine empty_output)) demo_state "/w/sub/y.json" = inr (cs, NFile f) \/
     open_rdwr (demo_env (demo_engine empty_output)) demo_state "/w/sub/y.json"
       = inr (cs, NSpecial (SDevice f))) /\
    can_read (demo_env (demo_engine empty_output)) f = true /\
    can_write (demo_env (demo_engine empty_output)) f = true.
Proof.
  assert (H : select_loop "/w" false ["/w"; "x.json"] [] [] (demo_env (demo_engine empty_output)) demo_state
              = (inr (["x.json"], ["/w/sub/y.json"; "/w/x.json"; "/w/x.xyz"]), demo_state))
    by (vm_compute; reflexivity).
  split; [exact H|].
  apply (select_nondry_opens_rdwr "/w" ["/w"; "x.json"] (demo_env (demo_engine empty_output))
           demo_state ["x.json"] ["/w/sub/y.json"; "/w/x.json"; "/w/x.xyz"] demo_state H).
  simpl. right; left; reflexivity.
Defined.

Lemma select_cb_dry_total path name d acc e s :
  exists ctl acc', select_cb true path name d acc e s = (inr (ctl, acc'), s).
Proof.
  unfold select_cb. destruct name as [|c name'].
  - destruct (negb (is_regular d)); eexists _, _; reflexivity.
  - destruct (Ascii.eqb c "."%char); [destruct (is_dir d); eexists _, _; reflexivity|].
    destruct (negb (is_regular d)); eexists _, _; reflexivity.
Qed.

(** X5. In a dry run, [ensureRegular] fails only because of the named
    path itself: when [os.Lstat] fails on it (the error is wrapped with
    its errno), or when it is neither a regular file nor a directory.
    Nothing found inside a directory makes the traversal fail, since
    writability is not checked. *)
Theorem ensureRegular_dry_failure pwd fn e s err :
  fst (ensureRegular pwd fn true e s) = inl err ->
  (exists c, lstat e s fn = inl c /\ err = unusable fn c) \/
  (exists sp, lstat e s fn = inr (NSpecial sp) /\ err = unusable fn NotRegular).
Proof.
  unfold ensureRegular, bind, ask, get. destruct (lstat e s fn) as [c|[f|kids|sp]] eqn:Hl; simpl.
  - intros H; inversion H; subst. left; exists c; split; reflexivity.
  - discriminate.
  - unfold WalkDir, bind, ask, get. rewrite Hl.
    destruct (walk_node_total (select_cb true) e s
                (fun path name d acc => select_cb_dry_total path name d acc e s)
                (S (S (height (s_root s)))) (NDir kids) fn (basename fn) []) as [ctl [acc' E]].
    rewrite E. discriminate.
  - intros H; inversion H; subst. right; exists sp; split; reflexivity.
Qed.

Lemma ensureRegular_dry_failure_witness :
  fst (ensureRegular "/w" "nope.json" true (demo_env (demo_engine empty_output)) demo_state)
    = inl (ErrUnusable "nope.json" ENOENT) /\
  ((exists c, lstat (demo_env (demo_engine empty_output)) demo_state "nope.json" = inl c /\
              ErrUnusable "nope.json" ENOENT = unusable "nope.json" c) \/
   (exists sp, lstat (demo_env (demo_engine empty_output)) demo_state "nope.json" = inr (NSpecial sp) /\
               ErrUnusable "nope.json" ENOENT = unusable "nope.json" NotRegular)).
Proof.
  assert (H : fst (ensureRegular "/w" "nope.json" true (demo_env (demo_engine empty_output)) demo_state)
              = inl (ErrUnusable "nope.json" ENOENT)) by (vm_compute; reflexivity).
  split; [exact H|].
  exact (ensureRegular_dry_failure "/w" "nope.json" (demo_env (demo_engine empty_output)) demo_state
           (ErrUnusable "nope.json" ENOENT) H).
Defined.

Lemma lookup_snoc cur c root kids :
  lookup cur root = LFound (NDir kids) ->
  lookup (cur ++ [c]) root = match find_kid c kids with Some n => LFound n | None => LNoEnt end.
Proof.
  revert root. induction cur as [|d cur IH]; intros root H; simpl in *.
  - inversion H; subst. simpl. destruct (find_kid c kids); reflexivity.
  - destruct root as [f|kids'|sp]; try discriminate.
    destruct (find_kid d kids'); [apply IH; exact H|discriminate].
Qed.

Lemma namei_go_follow k1 k2 root cur cs p n :
  (forall cur' cs' p' n', k1 cur' cs' = inr (p', n') -> (forall t, n' <> NSpecial (SSymlink t)) ->
     k2 cur' cs' = inr (p', n')) ->
  namei_go k1 root false cur cs = inr (p, n) -> (forall t, n <> NSpecial (SSymlink t)) ->
  namei_go k2 root true cur cs = inr (p, n).
Proof.
  intros Hk. revert cur. induction cs as [|c rest IH]; intros cur H Hn; simpl in H |- *;
    destruct (lookup cur root) as [m| |] eqn:L; try discriminate.
  - exact H.
  - destruct m as [f|kids|sp]; try discriminate.
    destruct (String.eqb c "" || String.eqb c "."); [apply IH; assumption|].
    destruct (String.eqb c ".."); [apply IH; assumption|].
    destruct (find_kid c kids) as [[f|kids'|[tg|f]]|] eqn:Hc; try discriminate; try (apply IH; assumption).
    destruct rest as [|c' rest'].
    + simpl in H. rewrite (lookup_snoc cur c root kids L), Hc in H.
      inversion H; subst. exfalso; apply (Hn tg); reflexivity.
    + destruct (String.eqb tg ""); [discriminate|]. apply Hk; assumption.
Qed.

(** Resolving without following a last symbolic link gives the same entry
    as following it, unless that entry is a symbolic link. *)
Lemma namei_follow links root cur cs p n :
  namei links root false cur cs = inr (p, n) -> (forall t, n <> NSpecial (SSymlink t)) ->
  namei links root true cur cs = inr (p, n).
Proof.
  revert cur cs p n. induction links as [|l IH]; intros cur cs p n; simpl; apply namei_go_follow;
    intros cur' cs' p' n' H Hn; [discriminate|apply IH; assumption].
Qed.

Lemma lstat_dir_open e s fn kids : lstat e s fn = inr (NDir kids) -> open_rdwr e s fn = inl EISDIR.
Proof.
  unfold lstat, open_rdwr, namei_from. destruct (String.eqb fn ""); [discriminate|].
  destruct (namei 40 (s_root s) false _ _) as [c|[p n]] eqn:Hn; [discriminate|].
  intros H; inversion H; subst.
  rewrite (namei_follow _ _ _ _ _ _ Hn) by (intros t; discriminate). reflexivity.
Qed.

(** X6. In a run that is not a dry run, a named directory from which the
    traversal selects no file (it is empty, or holds only hidden or
    non-regular entries, or is itself hidden) is then checked as an
    explicitly named file: once it passes [ensureUnder], opening it
    read-write fails and the selection stops with the error
    [unusable dir EISDIR], with no effect. *)
Theorem select_loop_empty_dir pwd fn rest fns moreFns e s kids :
  lstat e s fn = inr (NDir kids) ->
  fst (WalkDir (select_cb false) fn [] e s) = inr [] ->
  fst (ensureUnder pwd fn e s) = inr tt ->
  select_loop pwd false (fn :: rest) fns moreFns e s = (inl (unusable fn EISDIR), s).
Proof.
  intros Hl Hw Hu. cbn [select_loop].
  assert (Hne : fn <> "") by (intros ->; unfold lstat, namei_from in Hl; simpl in Hl; discriminate).
  assert (Her : ensureRegular pwd fn false e s = (inr [], s)).
  { destruct (ensureRegular_spec pwd fn false e s) as [Hs _]. revert Hs.
    unfold ensureRegular, bind, ask, get. rewrite Hl.
    destruct (WalkDir (select_cb false) fn [] e s) as [r s1]. simpl in Hw |- *.
    intros ->. subst r. reflexivity. }
  unfold bind at 1. rewrite Her.
  destruct (ensureUnder_ro pwd fn Hne e s) as [Hs _].
  unfold bind at 1. destruct (ensureUnder pwd fn e s) as [r s1]. simpl in Hu, Hs. subst.
  simpl. unfold ensureWritable, bind, ask, get.
  rewrite (lstat_dir_open e s fn kids Hl). reflexivity.
Qed.

Lemma select_loop_empty_dir_witness :
  select_loop "/w" false [".hidden"] [] [] (demo_env (demo_engine empty_output)) demo_state
    = (inl (unusable ".hidden" EISDIR), demo_state).
Proof.
  apply (select_loop_empty_dir "/w" ".hidden" [] [] [] (demo_env (demo_engine empty_output)) demo_state
           [("h.json", demo_file "{ }")]); vm_compute; reflexivity.
Defined.

(** ** The [product] loop *)






(** X8. Every file the loop leaves under [/app/b] comes from an input file
    that one arm of the case statement handles, under the input's name
    without its leading [./]; and it is either contents different from
    the input's or the output of a formatter that failed.  The fallback
    arm never leaves a file, and a file formatted to identical contents
    is removed. *)
Theorem product_loop_outputs cmd tool files st0 outs so st outs' so' :
  product_loop cmd tool files st0 outs so = Some (st, outs', so') ->
  exists added, outs' = outs ++ added /\
    forall f d, In (f, d) added ->
      exists path data h, In (path, data) files /\ f = TrimPrefix path "./" /\
        case_dispatch f = Some h /\
        (fst (tool h f data) <> 0 \/ (snd (tool h f data) = Some d /\ d <> data)).
Proof.
  revert st0 outs so. induction files as [|[path data] rest IH]; intros st0 outs so H; simpl in H.
  - inversion H; subst. exists []. split; [rewrite app_nil_r; reflexivity|intros f d []].
  - destruct (product_body cmd tool path data so) as [[[st1 outb] so1]|] eqn:Eb; [|discriminate].
    assert (Hb : forall d, outb = Some d ->
              exists h, case_dispatch (TrimPrefix path "./") = Some h /\
                (fst (tool h (TrimPrefix path "./") data) <> 0 \/
                 (snd (tool h (TrimPrefix path "./") data) = Some d /\ d <> data))).
    { intros d ->. unfold product_body in Eb.
      destruct (case_dispatch (TrimPrefix path "./")) as [h|] eqn:Hc.
      - exists h. split; [reflexivity|].
        destruct (tool h (TrimPrefix path "./") data) as [st' ob] eqn:Ht. simpl.
        destruct (Nat.eqb st' 0) eqn:Hst.
        + apply Nat.eqb_eq in Hst. right.
          destruct ob as [d'|]; [|discriminate].
          destruct (String.eqb d' data) eqn:Hd; inversion Eb; subst.
          split; [reflexivity|]. intros ->. rewrite String.eqb_refl in Hd. discriminate.
        + left. apply Nat.eqb_neq in Hst. exact Hst.
      - destruct (run_fallback cmd (TrimPrefix path "./") so) as [[? ?]|]; inversion Eb. }
    destruct (IH _ _ _ H) as [added [Hout Hadd]].
    destruct outb as [d0|].
    + exists ((TrimPrefix path "./", d0) :: added). split; [rewrite Hout, <- app_assoc; reflexivity|].
      intros f d [Heq|Hin].
      * inversion Heq; subst f d. destruct (Hb d0 eq_refl) as [h [Hc Hh]].
        exists path, data, h. split; [left; reflexivity|split; [reflexivity|split; assumption]].
      * destruct (Hadd f d Hin) as [p' [dt [h [Hp Hr]]]]. exists p', dt, h. split; [right; exact Hp|exact Hr].
    + exists added. split; [exact Hout|].
      intros f d Hin. destruct (Hadd f d Hin) as [p' [dt [h [Hp Hr]]]].
      exists p', dt, h. split; [right; exact Hp|exact Hr].
Qed.

Lemma product_loop_outputs_witness :
  product_loop (complaining true) brace_tool
    [("./a.json", "{"); ("./b.json", "{}"); ("./c.txt", "x")] 0 [] ""
    = Some (0, [("a.json", "{}")], ("! c.txt" ++ nl)%string) /\
  exists added, [("a.json", "{}")] = [] ++ added /\
    forall f d, In (f, d) added ->
      exists path data h, In (path, data) [("./a.json", "{"); ("./b.json", "{}"); ("./c.txt", "x")] /\
        f = TrimPrefix path "./" /\ case_dispatch f = Some h /\
        (fst (brace_tool h f data) <> 0 \/ (snd (brace_tool h f data) = Some d /\ d <> data)).
Proof.
  assert (H : product_loop (complaining true) brace_tool
                [("./a.json", "{"); ("./b.json", "{}"); ("./c.txt", "x")] 0 [] ""
              = Some (0, [("a.json", "{}")], ("! c.txt" ++ nl)%string)) by reflexivity.
  split; [exact H|].
  exact (product_loop_outputs (complaining true) brace_tool _ 0 [] "" 0 _ _ H).
Defined.

(** ** [WithInputFiles] *)

Lemma run_ifo_keeps_pwd_mode opt oo :
  oo_emptyusePWD oo = true -> oo_traversedirs oo = true ->
  oo_emptyusePWD (run_ifo opt oo) = true /\ oo_traversedirs (run_ifo opt oo) = true.
Proof.
  intros H1 H2. destruct opt; simpl; auto. rewrite H1. simpl. auto.
Qed.

Lemma apply_ifo_keeps_pwd_mode opts oo :
  oo_emptyusePWD oo = true -> oo_traversedirs oo = true ->
  oo_emptyusePWD (apply_ifo opts oo) = true /\ oo_traversedirs (apply_ifo opts oo) = true.
Proof.
  unfold apply_ifo. revert oo. induction opts as [|opt rest IH]; intros oo H1 H2; simpl; [auto|].
  destruct (run_ifo_keeps_pwd_mode opt oo H1 H2). apply IH; assumption.
Qed.

(** X9. Once [WithUseCurrentDirWhenNoPathsGiven()] is among the options,
    directory traversal is on whatever the other options are and in
    whatever order they come: a [WithTraverseDirectories(false)] given
    before or after it has no effect. *)
Theorem apply_ifo_use_pwd_traverses opts oo :
  In WithUseCurrentDirWhenNoPathsGiven opts ->
  oo_emptyusePWD (apply_ifo opts oo) = true /\ oo_traversedirs (apply_ifo opts oo) = true.
Proof.
  unfold apply_ifo. revert oo. induction opts as [|opt rest IH]; intros oo Hin; [destruct Hin|].
  simpl. destruct Hin as [->|Hin].
  - apply apply_ifo_keeps_pwd_mode; reflexivity.
  - apply IH; exact Hin.
Qed.

Lemma apply_ifo_use_pwd_traverses_witness :
  oo_emptyusePWD (apply_ifo [WithTraverseDirectories false; WithUseCurrentDirWhenNoPathsGiven;
                             WithTraverseDirectories false] (ifo_init (fun c => ErrUnusable "" c)))
    = true /\
  oo_traversedirs (apply_ifo [WithTraverseDirectories false; WithUseCurrentDirWhenNoPathsGiven;
                              WithTraverseDirectories false] (ifo_init (fun c => ErrUnusable "" c)))
    = true.
Proof.
  apply apply_ifo_use_pwd_traverses. right; left; reflexivity.
Defined.

Lemma select_loop_oo_fmt2 fl pwd dryrun filenames fns moreFns e s :
  select_loop_oo (mkIFO fl true true true (negb dryrun) unusable pwd) filenames fns moreFns e s
  = select_loop pwd dryrun filenames fns moreFns e s.
Proof.
  revert fns moreFns s. induction filenames as [|fn rest IH]; intros fns moreFns s; [reflexivity|].
  cbn [select_loop_oo select_loop].
  change (ensureRegular_oo (mkIFO fl true true true (negb dryrun) unusable pwd) fn)
    with (ensureRegular pwd fn dryrun).
  change (oo_under (mkIFO fl true true true (negb dryrun) unusable pwd)) with true.
  change (oo_writable (mkIFO fl true true true (negb dryrun) unusable pwd)) with (negb dryrun).
  change (ensureUnder_oo (mkIFO fl true true true (negb dryrun) unusable pwd) fn) with (ensureUnder pwd fn).
  change (ensureWritable_oo (mkIFO fl true true true (negb dryrun) unusable pwd) fn) with (ensureWritable fn).
  cbv iota. unfold bind.
  destruct (ensureRegular pwd fn dryrun e s) as [[err|[|x l]] s1]; [reflexivity| |apply IH].
  destruct (ensureUnder pwd fn e s1) as [[err|[]] s2]; [reflexivity|].
  destruct (negb dryrun); [destruct (ensureWritable fn e s2) as [[err|[]] s3]|]; try reflexivity; apply IH.
Qed.

Lemma read_into_fmt2 fl pwd dryrun filenames o e s :
  read_into (mkIFO fl true true true (negb dryrun) unusable pwd) filenames o e s
  = match read_inputs filenames e s with
    | (inl err, s') => (inl err, s')
    | (inr inputs, s') =>
        (inr (mkOptions (o_exe o) (o_args o) (o_dockerfile o) (o_stdoutf o) (o_dirA o) (o_dirB o)
                        (o_ifiles o ++ inputs) (o_ofilefunc o)), s')
    end.
Proof.
  revert o s. induction filenames as [|fn rest IH]; intros o s.
  - simpl. rewrite app_nil_r. destruct o; reflexivity.
  - cbn [read_into read_inputs]. unfold bind, ask, get, modify.
    destruct (read_file e s fn) as [c|data]; [reflexivity|].
    unfold WithInputFile. rewrite IH. simpl.
    destruct (read_inputs rest e (add_event (EvRead fn) s)) as [[err|more] s']; [reflexivity|].
    simpl. rewrite <- app_assoc. reflexivity.
Qed.

(** X10. With the input-file options the second version of [Fmt] gives it
    (and a non-empty [pwd]), [WithInputFiles] selects, checks and reads
    the files exactly as the first version of [Fmt] does: the same
    selection loop with the same errors, the same reads in
    [uniqueSorted] order, the files added as input files in that order,
    and [foundFilenamesByTraversingDirs] set when a traversal selected a
    file. *)
Theorem WithInputFiles_fmt2 ErrEmptyPWD unwrapped pwd dryrun filenames o e s :
  pwd <> "" ->
  WithInputFiles ErrEmptyPWD unwrapped (fmt2_input_files pwd dryrun filenames) o e s
  = bind (select_loop pwd dryrun (match filenames with [] => [pwd] | _ => filenames end) [] [])
      (fun '(fns, moreFns) =>
         bind (read_inputs (uniqueSorted (fns ++ moreFns)))
           (fun inputs =>
              match apply_opts (map (fun '(fn, data) => WithInputFile fn data) inputs) o with
              | inl err => raise err
              | inr o' => ret (negb (is_nil moreFns), o')
              end)) e s.
Proof.
  intros Hpwd. unfold WithInputFiles.
  change (apply_ifo (fmt2_input_files pwd dryrun filenames) (ifo_init unwrapped))
    with (mkIFO filenames true true true (negb dryrun) unusable pwd).
  cbv zeta. cbn [oo_pwd oo_emptyusePWD oo_filenames andb].
  destruct (String.eqb pwd "") eqn:Hp; [apply String.eqb_eq in Hp; contradiction|].
  assert (Hf : (if is_nil filenames then filenames ++ [pwd] else filenames)
               = match filenames with [] => [pwd] | _ => filenames end)
    by (destruct filenames; reflexivity).
  rewrite Hf. unfold bind at 1 3. rewrite select_loop_oo_fmt2.
  destruct (select_loop pwd dryrun (match filenames with [] => [pwd] | _ => filenames end) [] [] e s)
    as [[err|[fns more]] s1]; [reflexivity|].
  unfold bind. rewrite read_into_fmt2.
  destruct (read_inputs (uniqueSorted (fns ++ more)) e s1) as [[err|inputs] s2]; [reflexivity|].
  rewrite apply_opts_input_files. reflexivity.
Qed.

Lemma WithInputFiles_fmt2_witness :
  WithInputFiles (ErrTar "given empty $PWD") (fun c => ErrUnusable "" c)
    (fmt2_input_files "/w" true []) default_options (demo_env (demo_engine empty_output)) demo_state
  = bind (select_loop "/w" true ["/w"] [] [])
      (fun '(fns, moreFns) =>
         bind (read_inputs (uniqueSorted (fns ++ moreFns)))
           (fun inputs =>
              match apply_opts (map (fun '(fn, data) => WithInputFile fn data) inputs) default_options with
              | inl err => raise err
              | inr o' => ret (negb (is_nil moreFns), o')
              end)) (demo_env (demo_engine empty_output)) demo_state.
Proof.
  apply (WithInputFiles_fmt2 (ErrTar "given empty $PWD") (fun c => ErrUnusable "" c) "/w" true []
           default_options (demo_env (demo_engine empty_output)) demo_state).
  discriminate.
Defined.

(** ** What [Fmt] writes back *)

Lemma fmt_ofile_writes dryrun name data e s :
  exists evs, (forall ev, In ev evs -> ev = EvWrite name) /\
    s_trace (snd (fmt_ofile dryrun name data e s)) = s_trace s ++ evs /\
    s_stdout (snd (fmt_ofile dryrun name data e s)) = s_stdout s ++ [(name ++ nl)%string].
Proof.
  rewrite fmt_ofile_stdout.
  unfold fmt_ofile, bind, out, modify. simpl. destruct dryrun; simpl.
  - exists []. split; [intros ev []|split; [rewrite app_nil_r|]; reflexivity].
  - destruct (OverwriteFileContents_effect name data e (set_found true (add_stdout (name ++ nl) s)))
      as [[c [_ Hr]]|[[c Hr]|[cs [f [x [_ [_ [Hs _]]]]]]]];
      [rewrite Hr|rewrite Hr|rewrite Hs].
    + exists []. split; [intros ev []|split; [rewrite app_nil_r|]; reflexivity].
    + exists []. split; [intros ev []|split; [rewrite app_nil_r|]; reflexivity].
    + exists [EvWrite name]. split; [intros ev [<-|[]]; reflexivity|split; reflexivity].
Qed.

Lemma demux_writes o dryrun tr buf e s :
  o_ofilefunc o = Some (fmt_ofile dryrun) ->
  (exists evs, s_trace (snd (demux o tr buf e s)) = s_trace s ++ evs /\
     forall p, In (EvWrite p) evs ->
       In p (map (fun n => TrimPrefix n (o_dirB o ++ "/")) (perfile_names (o_stdoutf o) tr)) /\
       In (p ++ nl)%string (s_stdout (snd (demux o tr buf e s)))) /\
  (exists more, s_stdout (snd (demux o tr buf e s)) = s_stdout s ++ more).
Proof.
  intros Hf. revert buf s. induction tr as [|msg|name data rest IH]; intros buf s; simpl.
  - rewrite copy_out_run. destruct (String.eqb buf ""); [|destruct (e_stdout_err e (s_stdout s) buf)]; simpl.
    + split; [exists []; split; [rewrite app_nil_r; reflexivity|intros p []]|exists []; rewrite app_nil_r; reflexivity].
    + split; [exists []; split; [rewrite app_nil_r; reflexivity|intros p []]|exists []; rewrite app_nil_r; reflexivity].
    + split; [exists []; split; [rewrite app_nil_r; reflexivity|intros p []]|eexists; reflexivity].
  - split; [exists []; split; [rewrite app_nil_r; reflexivity|intros p []]|exists []; rewrite app_nil_r; reflexivity].
  - destruct (HasSuffix name "/"); [apply IH|].
    destruct (String.eqb name (o_stdoutf o)); [apply IH|].
    rewrite Hf. unfold bind.
    destruct (fmt_ofile_writes dryrun (TrimPrefix name (o_dirB o ++ "/")) data e s) as [evs1 [W1 [T1 O1]]].
    destruct (fmt_ofile dryrun (TrimPrefix name (o_dirB o ++ "/")) data e s) as [[err|[]] s1];
      simpl in T1, O1 |- *.
    + split.
      * exists evs1. split; [exact T1|]. intros p Hp.
        assert (Hpe : EvWrite p = EvWrite (TrimPrefix name (o_dirB o ++ "/"))) by (apply W1; exact Hp).
        inversion Hpe; subst p. split; [left; reflexivity|].
        rewrite O1. apply in_or_app. right; left; reflexivity.
      * eexists; exact O1.
    + destruct (IH buf s1) as [[evs2 [T2 W2]] [more2 O2]]. split.
      * exists (evs1 ++ evs2). split; [rewrite T2, T1, app_assoc; reflexivity|].
        intros p Hp. apply in_app_or in Hp. destruct Hp as [Hp|Hp].
        -- assert (Hpe : EvWrite p = EvWrite (TrimPrefix name (o_dirB o ++ "/"))) by (apply W1; exact Hp).
           inversion Hpe; subst p. split; [left; reflexivity|].
           rewrite O2, O1. apply in_or_app. left. apply in_or_app. right; left; reflexivity.
        -- destruct (W2 p Hp) as [Hn Hs]. split; [right; exact Hn|exact Hs].
      * exists ([(TrimPrefix name (o_dirB o ++ "/") ++ nl)%string] ++ more2).
        rewrite O2, O1, app_assoc. reflexivity.
Qed.

Lemma New_writes opts o dryrun e s r s' p :
  apply_opts opts default_options = inr o ->
  o_ofilefunc o = Some (fmt_ofile dryrun) ->
  New opts e s = (r, s') ->
  In (EvWrite p) (s_trace s') -> ~ In (EvWrite p) (s_trace s) ->
  exists archive tar errout,
    In (EvBuild (o_args o ++ ["-"]) archive) (s_trace s') /\
    e_engine e (o_args o ++ ["-"]) archive = RunOk tar errout /\
    In p (map (fun n => TrimPrefix n (o_dirB o ++ "/")) (perfile_names (o_stdoutf o) tar)) /\
    In (p ++ nl)%string (s_stdout s').
Proof.
  intros Happ Hf H Hin Hnot. unfold New in H. rewrite Happ in H.
  apply bind_inv in H. destruct H as [[err [Hask _]]|[e0 [s0 [Hask H]]]]; [discriminate|].
  unfold ask in Hask. inversion Hask; subst e0 s0; clear Hask.
  apply bind_inv in H. destruct H as [[err [Hx Hr]]|[x [s1 [Hx H]]]].
  - exfalso. apply Hnot.
    assert (s' = s) by (destruct (String.eqb (o_exe o) ""); [destruct (e_docker e)|]; inversion Hx; reflexivity).
    subst s'. exact Hin.
  - assert (s1 = s).
    { destruct (String.eqb (o_exe o) ""); [destruct (e_docker e)|]; inversion Hx; reflexivity. }
    subst s1.
    destruct (Nat.eqb (String.length (o_dockerfile o)) 0).
    { inversion H; subst. contradiction. }
    destruct (build_archive o) as [err|archive].
    { inversion H; subst. contradiction. }
    cbv zeta in H. apply bind_inv in H.
    destruct H as [[err [Hm _]]|[u [s4 [Hm H]]]]; [discriminate|].
    unfold modify in Hm. inversion Hm; subst s4; clear Hm.
    destruct (e_engine e (o_args o ++ ["-"]) archive) as [tar errout|re errout] eqn:Heng.
    + apply bind_inv in H. destruct H as [[err [Hm _]]|[u' [s5 [Hm H]]]]; [discriminate|].
      unfold modify in Hm. inversion Hm; subst s5; clear Hm.
      destruct (demux_writes o dryrun tar "" e
                  (add_stderr errout (add_event (EvBuild (o_args o ++ ["-"]) archive) s)) Hf)
        as [[evs [T W]] _].
      rewrite H in T, W. simpl in T, W.
      exists archive, tar, errout.
      split; [rewrite T; apply in_or_app; left; apply in_or_app; right; left; reflexivity|].
      split; [exact Heng|].
      rewrite T in Hin. apply in_app_or in Hin. destruct Hin as [Hin|Hin].
      * apply in_app_or in Hin. destruct Hin as [Hin|[Hin|[]]]; [contradiction|discriminate].
      * apply W. exact Hin.
    + exfalso. apply bind_inv in H. destruct H as [[err [Hm _]]|[u' [s5 [Hm H]]]]; [discriminate|].
      unfold modify in Hm. inversion Hm; subst s5; clear Hm.
      assert (s' = add_stderr errout (add_event (EvBuild (o_args o ++ ["-"]) archive) s)).
      { destruct (String.eqb (run_error_string re) "exit status 1"); inversion H; reflexivity. }
      subst s'. simpl in Hin. apply in_app_or in Hin.
      destruct Hin as [Hin|[Hin|[]]]; [contradiction|discriminate].
Qed.

(** X12. Every file a run of [Fmt] writes back was named by a per-file
    entry of the output archive the engine returned (with the prefix
    [b/] removed), and its name was printed on the primary output
    before the run ended. *)
Theorem Fmt_writes_reported pwd dryrun filenames e s r s' p :
  Fmt pwd dryrun filenames e s = (r, s') ->
  In (EvWrite p) (s_trace s') -> ~ In (EvWrite p) (s_trace s) ->
  (exists args archive tar errout,
     In (EvBuild args archive) (s_trace s') /\ e_engine e args archive = RunOk tar errout /\
     In p (map (fun n => TrimPrefix n "b/") (perfile_names "stdout" tar))) /\
  In (p ++ nl)%string (s_stdout s').
Proof.
  intros H Hin Hnot. unfold Fmt in H.
  apply bind_inv in H. destruct H as [[err [Hask _]]|[e0 [s0 [Hask H]]]]; [discriminate|].
  unfold ask in Hask. inversion Hask; subst e0 s0; clear Hask.
  destruct (e_docker e) as [exe|] eqn:Hd; [|inversion H; subst; contradiction].
  cbv zeta in H. apply bind_inv in H.
  destruct (select_loop_ro pwd dryrun (match filenames with [] => [pwd] | _ => filenames end) [] [] e s)
    as [Hs1 _].
  destruct H as [[err [Hsel Hr]]|[[fns more] [s1 [Hsel H]]]].
  { rewrite Hsel in Hs1; simpl in Hs1; subst s'. contradiction. }
  rewrite Hsel in Hs1; simpl in Hs1; subst s1.
  unfold Fmt_build in H. apply bind_inv in H.
  destruct H as [[err [Hm _]]|[u [s2 [Hm H]]]]; [discriminate|].
  unfold modify in Hm. inversion Hm; subst s2; clear Hm.
  cbv zeta in H. apply bind_inv in H.
  destruct (read_inputs_spec (uniqueSorted (fns ++ more)) e (set_found false s)) as [evs [Hevs Hri]].
  destruct H as [[err [Hrd Hr]]|[inputs [s3 [Hrd H]]]].
  { rewrite Hrd in Hri; simpl in Hri; subst s'. simpl in Hin.
    apply in_app_or in Hin. destruct Hin as [Hin|Hin]; [contradiction|not_a_read Hevs Hin]. }
  rewrite Hrd in Hri; simpl in Hri; subst s3.
  apply bind_inv in H. destruct H as [[err [Hask _]]|[e0 [s0 [Hask H]]]]; [discriminate|].
  unfold ask in Hask. inversion Hask; subst e0 s0; clear Hask.
  pose proof (Fmt_options_exact exe dryrun (is_nil more) inputs (e_environ e)) as Happ.
  assert (Hnew : exists r4 s4, New
      ([WithContext; WithStdout; WithStderr; WithExecutable exe;
        WithDockerfile (dockerfile (is_nil more)); WithOutputFileFunc (fmt_ofile dryrun)]
       ++ map (fun '(fn, data) => WithInputFile fn data) inputs ++ arg_opts (e_environ e))
      e (app_trace evs (set_found false s)) = (r4, s4) /\ s' = s4).
  { apply bind_inv in H. destruct H as [[err [Hn Hr]]|[u4 [s4 [Hn H]]]].
    - eexists _, _; split; [exact Hn|reflexivity].
    - eexists _, _; split; [exact Hn|].
      unfold bind, get in H. destruct (dryrun && s_found s4)%bool; inversion H; reflexivity. }
  destruct Hnew as [r4 [s4 [Hn ->]]].
  assert (Hnot' : ~ In (EvWrite p) (s_trace (app_trace evs (set_found false s)))).
  { simpl. intros Hp. apply in_app_or in Hp. destruct Hp as [Hp|Hp]; [contradiction|not_a_read Hevs Hp]. }
  destruct (New_writes _ _ dryrun e _ _ _ p Happ eq_refl Hn Hin Hnot')
    as [archive [tar [errout [Hb [Heng [Hp Hout]]]]]].
  split; [|exact Hout].
  exists (["build"; "--output=-"]
            ++ map (fun kv => ("--build-arg=" ++ TrimPrefix kv "ARG_")%string)
                   (filter (fun kv => HasPrefix kv "ARG_") (e_environ e)) ++ ["-"]), archive, tar, errout.
  split; [exact Hb|split; [exact Heng|exact Hp]].
Qed.

Lemma Fmt_writes_reported_witness :
  In (EvWrite "x.json") (s_trace (snd (Fmt "/w" false ["x.json"] (demo_env (demo_engine json_output)) demo_state))) /\
  (exists args archive tar errout,
     In (EvBuild args archive)
        (s_trace (snd (Fmt "/w" false ["x.json"] (demo_env (demo_engine json_output)) demo_state))) /\
     e_engine (demo_env (demo_engine json_output)) args archive = RunOk tar errout /\
     In "x.json" (map (fun n => TrimPrefix n "b/") (perfile_names "stdout" tar))) /\
  In ("x.json" ++ nl)%string
     (s_stdout (snd (Fmt "/w" false ["x.json"] (demo_env (demo_engine json_output)) demo_state))).
Proof.
  assert (Hw : In (EvWrite "x.json")
                 (s_trace (snd (Fmt "/w" false ["x.json"] (demo_env (demo_engine json_output)) demo_state))))
    by (vm_compute; right; right; left; reflexivity).
  split; [exact Hw|].
  apply (Fmt_writes_reported "/w" false ["x.json"] (demo_env (demo_engine json_output)) demo_state
           (fst (Fmt "/w" false ["x.json"] (demo_env (demo_engine json_output)) demo_state))
           (snd (Fmt "/w" false ["x.json"] (demo_env (demo_engine json_output)) demo_state)) "x.json").
  - destruct (Fmt "/w" false ["x.json"] (demo_env (demo_engine json_output)) demo_state); reflexivity.
  - exact Hw.
  - simpl. intros [].
Defined.

(** ** Reading the selected files *)

(** X13. Reading the selected files stops at the first file that cannot be
    read: every file before it was read, that file's [os.ReadFile] error
    is returned wrapped as an unusable file, and no later file is
    opened. *)
Theorem read_inputs_first_failure filenames e s err s' :
  read_inputs filenames e s = (inl err, s') ->
  exists pre fn rest c,
    filenames = pre ++ fn :: rest /\
    (forall p, In p pre -> exists data, read_file e s p = inr data) /\
    read_file e s fn = inl c /\ err = unusable fn c /\
    s' = app_trace (map EvRead pre) s.
Proof.
  revert s. induction filenames as [|fn rest IH]; intros s H; simpl in H; [discriminate|].
  unfold bind, ask, get in H. destruct (read_file e s fn) as [c|data] eqn:Hr.
  - inversion H; subst. exists [], fn, rest, c.
    split; [reflexivity|split; [intros p []|split; [exact Hr|split; [reflexivity|]]]].
    symmetry; apply app_trace_nil.
  - unfold modify in H.
    destruct (read_inputs rest e (add_event (EvRead fn) s)) as [[err'|more] s1] eqn:Hrest;
      [|discriminate].
    inversion H; subst err' s1; clear H.
    destruct (IH _ Hrest) as [pre [fn' [rest' [c [Heq [Hpre [Hc [Herr Hs]]]]]]]].
    exists (fn :: pre), fn', rest', c. split; [rewrite Heq; reflexivity|split; [|split; [|split; [exact Herr|]]]].
    + intros p [<-|Hp]; [exists data; exact Hr|].
      destruct (Hpre p Hp) as [d Hd]. exists d. rewrite <- Hd. apply read_file_root. reflexivity.
    + rewrite <- Hc. apply read_file_root. reflexivity.
    + rewrite Hs. unfold app_trace, add_event. simpl. rewrite <- app_assoc. reflexivity.
Qed.

Lemma read_inputs_first_failure_witness :
  exists pre fn rest c,
    ["x.json"; "nope.json"; "x.xyz"] = pre ++ fn :: rest /\
    (forall p, In p pre -> exists data, read_file (demo_env (demo_engine empty_output)) demo_state p = inr data) /\
    read_file (demo_env (demo_engine empty_output)) demo_state fn = inl c /\
    ErrUnusable "nope.json" (PathErr "open" "nope.json" ENOENT) = unusable fn c /\
    snd (read_inputs ["x.json"; "nope.json"; "x.xyz"] (demo_env (demo_engine empty_output)) demo_state)
      = app_trace (map EvRead pre) demo_state.
Proof.
  apply (read_inputs_first_failure ["x.json"; "nope.json"; "x.xyz"] (demo_env (demo_engine empty_output))
           demo_state (ErrUnusable "nope.json" (PathErr "open" "nope.json" ENOENT))
           (snd (read_inputs ["x.json"; "nope.json"; "x.xyz"] (demo_env (demo_engine empty_output)) demo_state))).
  vm_compute. reflexivity.
Defined.

(** ** Defaults of [WithInputFiles] *)

Lemma bind_err {A B} (m : M A) (k : A -> M B) e s err s' :
  m e s = (inl err, s') -> bind m k e s = (inl err, s').
Proof. intros H. unfold bind. rewrite H. reflexivity. Qed.

Lemma apply_ifo_empty_pwd opts oo :
  (forall p, In (WithPWD p) opts -> p = "") -> oo_pwd oo = "" -> oo_pwd (apply_ifo opts oo) = "".
Proof.
  unfold apply_ifo. revert oo. induction opts as [|opt rest IH]; intros oo Hp Ho; [exact Ho|].
  simpl. apply IH; [intros p Hin; apply Hp; right; exact Hin|].
  destruct opt; simpl; try exact Ho.
  - destruct (negb (oo_emptyusePWD oo)); exact Ho.
  - apply Hp. left; reflexivity.
Qed.

Lemma apply_ifo_no_traverse opts oo :
  ~ In WithUseCurrentDirWhenNoPathsGiven opts -> ~ In (WithTraverseDirectories true) opts ->
  oo_emptyusePWD oo = false -> oo_traversedirs oo = false ->
  oo_emptyusePWD (apply_ifo opts oo) = false /\ oo_traversedirs (apply_ifo opts oo) = false.
Proof.
  unfold apply_ifo. revert oo.
  induction opts as [|opt rest IH]; intros oo Hu Ht He Htr; [split; assumption|].
  simpl. apply IH.
  - intros Hin; apply Hu; right; exact Hin.
  - intros Hin; apply Ht; right; exact Hin.
  - destruct opt; simpl; try exact He.
    + exfalso; apply Hu; left; reflexivity.
    + rewrite He. reflexivity.
  - destruct opt; simpl; try exact Htr.
    + exfalso; apply Hu; left; reflexivity.
    + rewrite He. simpl. destruct dotraverse; [|reflexivity].
      exfalso; apply Ht; left; reflexivity.
Qed.

Lemma ensureRegular_oo_dir oo fn e s kids :
  oo_traversedirs oo = false -> lstat e s fn = inr (NDir kids) ->
  ensureRegular_oo oo fn e s = (inl (oo_errer oo fn NotRegular), s).
Proof.
  intros Ht Hl. unfold ensureRegular_oo, bind, ask, get. cbv beta iota.
  rewrite Hl, Ht. reflexivity.
Qed.

Lemma ensureRegular_oo_notrav oo fn e s a s' :
  oo_traversedirs oo = false -> ensureRegular_oo oo fn e s = (inr a, s') -> a = [].
Proof.
  intros Ht. unfold ensureRegular_oo, bind, ask, get. cbv beta iota.
  destruct (lstat e s fn) as [c|[f|kids|sp]]; unfold raise, ret; intros H.
  - discriminate H.
  - inversion H; reflexivity.
  - rewrite Ht in H. discriminate H.
  - discriminate H.
Qed.

Lemma select_loop_oo_notrav oo filenames fns moreFns e s fns' more' s' :
  oo_traversedirs oo = false ->
  select_loop_oo oo filenames fns moreFns e s = (inr (fns', more'), s') ->
  fns' = fns ++ filenames /\ more' = moreFns.
Proof.
  intros Ht. revert fns moreFns s.
  induction filenames as [|fn rest IH]; intros fns moreFns s H.
  - cbn [select_loop_oo] in H. unfold ret in H. inversion H. rewrite app_nil_r. split; reflexivity.
  - cbn [select_loop_oo] in H.
    apply bind_inv in H as [[err [_ H]]|[a [s1 [Ha H]]]]; [discriminate H|].
    rewrite (ensureRegular_oo_notrav oo fn e s a s1 Ht Ha) in H. cbv beta iota in H.
    apply bind_inv in H as [[err [_ H]]|[u [s2 [_ H]]]]; [discriminate H|].
    apply bind_inv in H as [[err [_ H]]|[u' [s3 [_ H]]]]; [discriminate H|].
    destruct (IH _ _ _ H) as [-> ->]. rewrite <- app_assoc. split; reflexivity.
Qed.

Lemma read_into_ifiles oo fns o e s o' s' :
  read_into oo fns o e s = (inr o', s') ->
  exists inputs, map fst inputs = fns /\
    o' = mkOptions (o_exe o) (o_args o) (o_dockerfile o) (o_stdoutf o) (o_dirA o) (o_dirB o)
           (o_ifiles o ++ inputs) (o_ofilefunc o).
Proof.
  revert o s. induction fns as [|fn rest IH]; intros o s H.
  - cbn [read_into] in H. unfold ret in H. inversion H; subst.
    exists []. rewrite app_nil_r. destruct o'; split; reflexivity.
  - cbn [read_into] in H. unfold bind, ask, get in H. cbv beta iota in H.
    destruct (read_file e s fn) as [c|data]; [discriminate H|].
    unfold modify in H. cbv beta iota in H. unfold WithInputFile in H.
    destruct (IH _ _ H) as [inputs [Hm Ho]].
    exists ((fn, data) :: inputs). split; [simpl; rewrite Hm; reflexivity|].
    rewrite Ho. simpl. rewrite <- app_assoc. reflexivity.
Qed.

(** X14. [WithInputFiles] refuses to run when no [WithPWD] option gives it a
    non-empty directory: it fails with [ErrEmptyPWDForInputFiles] before
    looking at any file, and leaves the state as it was. *)
Theorem WithInputFiles_empty_pwd ErrEmptyPWD unwrapped opts o e s :
  (forall p, In (WithPWD p) opts -> p = "") ->
  WithInputFiles ErrEmptyPWD unwrapped opts o e s = (inl ErrEmptyPWD, s).
Proof.
  intros Hp. unfold WithInputFiles. cbv zeta.
  rewrite (apply_ifo_empty_pwd opts (ifo_init unwrapped) Hp eq_refl). reflexivity.
Qed.

Lemma WithInputFiles_empty_pwd_witness :
  (forall p, In (WithPWD p) [WithFilenames ["x.json"]; WithPWD ""; WithUseCurrentDirWhenNoPathsGiven]
             -> p = "") /\
  WithInputFiles (ErrTar "given empty $PWD") (fun c => ErrUnusable "" c)
    [WithFilenames ["x.json"]; WithPWD ""; WithUseCurrentDirWhenNoPathsGiven]
    default_options (demo_env (demo_engine empty_output)) demo_state
  = (inl (ErrTar "given empty $PWD"), demo_state).
Proof.
  assert (Hp : forall p, In (WithPWD p) [WithFilenames ["x.json"]; WithPWD "";
                                          WithUseCurrentDirWhenNoPathsGiven] -> p = "")
    by (intros p [H|[H|[H|[]]]]; inversion H; reflexivity).
  split; [exact Hp|].
  apply (WithInputFiles_empty_pwd (ErrTar "given empty $PWD") (fun c => ErrUnusable "" c)
           [WithFilenames ["x.json"]; WithPWD ""; WithUseCurrentDirWhenNoPathsGiven]
           default_options (demo_env (demo_engine empty_output)) demo_state Hp).
Defined.

(** X15. Directory traversal is off by default: unless
    [WithUseCurrentDirWhenNoPathsGiven()] or [WithTraverseDirectories(true)]
    is given, a directory named first fails the option with the selection
    failure builder's error for [NotRegular], before any file is read. *)
Theorem WithInputFiles_dir_rejected ErrEmptyPWD unwrapped opts o e s fn rest kids :
  ~ In WithUseCurrentDirWhenNoPathsGiven opts -> ~ In (WithTraverseDirectories true) opts ->
  oo_pwd (apply_ifo opts (ifo_init unwrapped)) <> "" ->
  oo_filenames (apply_ifo opts (ifo_init unwrapped)) = fn :: rest ->
  lstat e s fn = inr (NDir kids) ->
  WithInputFiles ErrEmptyPWD unwrapped opts o e s
  = (inl (oo_errer (apply_ifo opts (ifo_init unwrapped)) fn NotRegular), s).
Proof.
  intros Hu Ht Hp Hf Hl. unfold WithInputFiles. cbv zeta.
  destruct (apply_ifo_no_traverse opts (ifo_init unwrapped) Hu Ht eq_refl eq_refl) as [He Htr].
  destruct (String.eqb (oo_pwd (apply_ifo opts (ifo_init unwrapped))) "") eqn:Hpe;
    [apply String.eqb_eq in Hpe; contradiction|].
  rewrite He, Hf. cbn [andb]. apply bind_err.
  cbn [select_loop_oo]. apply bind_err.
  exact (ensureRegular_oo_dir _ fn e s kids Htr Hl).
Qed.

Lemma WithInputFiles_dir_rejected_witness :
  lstat (demo_env (demo_engine empty_output)) demo_state "sub"
    = inr (NDir [("y.json", demo_file "{ }")]) /\
  WithInputFiles (ErrTar "given empty $PWD") (fun c => ErrUnusable "" c)
    [WithPWD "/w"; WithFilenames ["sub"; "x.json"]]
    default_options (demo_env (demo_engine empty_output)) demo_state
  = (inl (ErrUnusable "" NotRegular), demo_state).
Proof.
  assert (Hl : lstat (demo_env (demo_engine empty_output)) demo_state "sub"
               = inr (NDir [("y.json", demo_file "{ }")])) by (vm_compute; reflexivity).
  split; [exact Hl|].
  apply (WithInputFiles_dir_rejected (ErrTar "given empty $PWD") (fun c => ErrUnusable "" c)
           [WithPWD "/w"; WithFilenames ["sub"; "x.json"]] default_options
           (demo_env (demo_engine empty_output)) demo_state "sub" ["x.json"]
           [("y.json", demo_file "{ }")]).
  - intros [H|[H|[]]]; discriminate H.
  - intros [H|[H|[]]]; discriminate H.
  - vm_compute. intros H; discriminate H.
  - reflexivity.
  - exact Hl.
Defined.

(** X16. Without [WithUseCurrentDirWhenNoPathsGiven()] or
    [WithTraverseDirectories(true)], a successful [WithInputFiles] never
    reports files found by traversing directories, and it adds to the
    build exactly the given file names, sorted and without duplicates,
    after the input files already there, changing no other option. *)
Theorem WithInputFiles_no_traverse ErrEmptyPWD unwrapped opts o e s b o' s' :
  ~ In WithUseCurrentDirWhenNoPathsGiven opts -> ~ In (WithTraverseDirectories true) opts ->
  WithInputFiles ErrEmptyPWD unwrapped opts o e s = (inr (b, o'), s') ->
  b = false /\
  exists inputs,
    map fst inputs = uniqueSorted (oo_filenames (apply_ifo opts (ifo_init unwrapped))) /\
    o' = mkOptions (o_exe o) (o_args o) (o_dockerfile o) (o_stdoutf o) (o_dirA o) (o_dirB o)
           (o_ifiles o ++ inputs) (o_ofilefunc o).
Proof.
  intros Hu Ht. unfold WithInputFiles. cbv zeta.
  destruct (apply_ifo_no_traverse opts (ifo_init unwrapped) Hu Ht eq_refl eq_refl) as [He Htr].
  destruct (String.eqb (oo_pwd (apply_ifo opts (ifo_init unwrapped))) "");
    [intros H; discriminate H|].
  rewrite He. cbn [andb]. intros H.
  apply bind_inv in H as [[err [_ H]]|[[fns more] [s1 [Hsel H]]]]; [discriminate H|].
  destruct (select_loop_oo_notrav _ _ _ _ e s fns more s1 Htr Hsel) as [-> ->].
  cbv beta iota in H.
  apply bind_inv in H as [[err [_ H]]|[o1 [s2 [Hr H]]]]; [discriminate H|].
  unfold ret in H. inversion H; subst.
  split; [reflexivity|].
  rewrite app_nil_r in Hr. exact (read_into_ifiles _ _ _ _ _ _ _ Hr).
Qed.

Lemma WithInputFiles_no_traverse_witness :
  WithInputFiles (ErrTar "given empty $PWD") (fun c => ErrUnusable "" c)
    [WithPWD "/w"; WithFilenames ["x.json"; "x.json"]; WithEnsureUnderPWD true]
    default_options (demo_env (demo_engine empty_output)) demo_state
  = (inr (false, mkOptions "" ["build"; "--output=-"] "" "stdout" "a" "b" [("x.json", "{ }")] None),
     snd (WithInputFiles (ErrTar "given empty $PWD") (fun c => ErrUnusable "" c)
            [WithPWD "/w"; WithFilenames ["x.json"; "x.json"]; WithEnsureUnderPWD true]
            default_options (demo_env (demo_engine empty_output)) demo_state)) /\
  false = false /\
  exists inputs,
    map fst inputs = uniqueSorted ["x.json"; "x.json"] /\
    mkOptions "" ["build"; "--output=-"] "" "stdout" "a" "b" [("x.json", "{ }")] None
    = mkOptions "" ["build"; "--output=-"] "" "stdout" "a" "b" ([] ++ inputs) None.
Proof.
  assert (H : WithInputFiles (ErrTar "given empty $PWD") (fun c => ErrUnusable "" c)
    [WithPWD "/w"; WithFilenames ["x.json"; "x.json"]; WithEnsureUnderPWD true]
    default_options (demo_env (demo_engine empty_output)) demo_state
  = (inr (false, mkOptions "" ["build"; "--output=-"] "" "stdout" "a" "b" [("x.json", "{ }")] None),
     snd (WithInputFiles (ErrTar "given empty $PWD") (fun c => ErrUnusable "" c)
            [WithPWD "/w"; WithFilenames ["x.json"; "x.json"]; WithEnsureUnderPWD true]
            default_options (demo_env (demo_engine empty_output)) demo_state)))
    by (vm_compute; reflexivity).
  assert (Hu : ~ In WithUseCurrentDirWhenNoPathsGiven
                 [WithPWD "/w"; WithFilenames ["x.json"; "x.json"]; WithEnsureUnderPWD true])
    by (intros [Hi|[Hi|[Hi|[]]]]; discriminate Hi).
  assert (Ht : ~ In (WithTraverseDirectories true)
                 [WithPWD "/w"; WithFilenames ["x.json"; "x.json"]; WithEnsureUnderPWD true])
    by (intros [Hi|[Hi|[Hi|[]]]]; discriminate Hi).
  split; [exact H|].
  exact (WithInputFiles_no_traverse (ErrTar "given empty $PWD") (fun c => ErrUnusable "" c)
           [WithPWD "/w"; WithFilenames ["x.json"; "x.json"]; WithEnsureUnderPWD true]
           default_options (demo_env (demo_engine empty_output)) demo_state _ _ _ Hu Ht H).
Defined.
